(** * crudapp.py: the patient table, its schema migration, its queries and
      the two format validators.

    The data layer of the application talks to one SQLite table through
    parameterised statements.  Each Python function is embedded as a function
    on the content of that table; the engine's part (constraints, LIKE,
    three-valued logic, AUTOINCREMENT) lives in [Sqlite], the Python part
    (truthiness, [in], [split], [sorted], [re.match]) in [Py] and [Re].

    A Python [str] is the sequence of its characters; a character is an
    [ascii] (code points 0..255).  Strings with characters beyond code point
    255 are outside the embedding.  The classes of the email pattern are
    explicit ASCII ranges and lose nothing by that; [\d], [strip] and [int]
    also know decimal digits and white space beyond code point 255, so what
    is proved of every string about them is what holds of the digits 0 to 9
    and is stated for those, or through the function itself.

    Row ids are integers; the ids a function is called with are within the
    64-bit range of the engine ([Sqlite.int64]), outside of which binding
    the parameter raises before any statement runs. *)

From Stdlib Require Import ZArith List String Ascii Bool Lia.
From Stdlib Require Import Sorted Permutation ListSet.
From Stdlib Require Import DecimalString DecimalNat.
Import ListNotations.

Local Open Scope string_scope.
Local Open Scope list_scope.

(* ------------------------------------------------------------------ *)
(** ** Python strings *)

Module Py.

Definition chars (s : string) : list ascii := list_ascii_of_string s.
Definition str (l : list ascii) : string := string_of_list_ascii l.

(** [if s:] on a string. *)
Definition truthy (s : string) : bool := negb (s =? "").

Fixpoint starts_with (p s : list ascii) : bool :=
  match p, s with
  | [], _ => true
  | _ :: _, [] => false
  | a :: p', b :: s' => (a =? b)%char && starts_with p' s'
  end.

Fixpoint occurs_in (p s : list ascii) : bool :=
  starts_with p s ||
  match s with
  | [] => false
  | _ :: s' => occurs_in p s'
  end.

(** [needle in hay]. *)
Definition contains (needle hay : string) : bool :=
  occurs_in (chars needle) (chars hay).

(** [s.split(sep)] for a one-character separator. *)
Fixpoint split_chars (sep : ascii) (s : list ascii) : list (list ascii) :=
  match s with
  | [] => [[]]
  | c :: s' =>
      if (c =? sep)%char then [] :: split_chars sep s'
      else match split_chars sep s' with
           | h :: t => (c :: h) :: t
           | [] => [[c]]
           end
  end.

Definition split (sep : ascii) (s : string) : list string :=
  map str (split_chars sep (chars s)).

(** [domains.add(d)] on a set kept as a duplicate-free list. *)
Definition set_add (d : string) (s : list string) : list string :=
  ListSet.set_add string_dec d s.

(** [sorted(xs)]: ascending in the code-point order of strings. *)
Fixpoint insert_sorted (x : string) (l : list string) : list string :=
  match l with
  | [] => [x]
  | y :: l' => if (x <=? y)%string then x :: l else y :: insert_sorted x l'
  end.

Definition sorted (l : list string) : list string :=
  fold_right insert_sorted [] l.

End Py.

(* ------------------------------------------------------------------ *)
(** ** Regular expressions, as far as the two patterns use them *)

Module Re.

Inductive regex :=
| Void                              (* matches no string *)
| Eps                               (* matches the empty string *)
| Cls (p : ascii -> bool)           (* one character of a class *)
| Cat (r1 r2 : regex)
| Alt (r1 r2 : regex)
| Star (r : regex).

(** The quantifiers of the patterns. *)
Definition Chr (c : ascii) : regex := Cls (fun x => (x =? c)%char).
Definition Plus (r : regex) : regex := Cat r (Star r).            (* r+ *)
Definition Opt (r : regex) : regex := Alt r Eps.                  (* r? *)

Fixpoint Times (n : nat) (r : regex) : regex :=                   (* r{n} *)
  match n with
  | O => Eps
  | S n' => Cat r (Times n' r)
  end.

Fixpoint UpTo (k : nat) (r : regex) : regex :=                    (* r{0,k} *)
  match k with
  | O => Eps
  | S k' => Opt (Cat r (UpTo k' r))
  end.

Definition AtLeast (n : nat) (r : regex) : regex :=               (* r{n,} *)
  Cat (Times n r) (Star r).

Definition Between (m n : nat) (r : regex) : regex :=             (* r{m,n} *)
  Cat (Times m r) (UpTo (n - m) r).

Fixpoint nullable (r : regex) : bool :=
  match r with
  | Void => false
  | Eps => true
  | Cls _ => false
  | Cat r1 r2 => nullable r1 && nullable r2
  | Alt r1 r2 => nullable r1 || nullable r2
  | Star _ => true
  end.

(** What is left of [r] once it has read [c]. *)
Fixpoint deriv (c : ascii) (r : regex) : regex :=
  match r with
  | Void => Void
  | Eps => Void
  | Cls p => if p c then Eps else Void
  | Cat r1 r2 =>
      if nullable r1
      then Alt (Cat (deriv c r1) r2) (deriv c r2)
      else Cat (deriv c r1) r2
  | Alt r1 r2 => Alt (deriv c r1) (deriv c r2)
  | Star r1 => Cat (deriv c r1) (Star r1)
  end.

(** Does [r] match the whole of [s]? *)
Fixpoint full_match (r : regex) (s : list ascii) : bool :=
  match s with
  | [] => nullable r
  | c :: s' => full_match (deriv c r) s'
  end.

Definition newline : ascii := "010"%char.

(** [re.match("^" r "$", s) is not None].  The engine backtracks over every
    way to match [r], so there is a match when some way ends where [$]
    holds: at the end of [s], or just before a newline that ends [s]. *)
Definition match_anchored (r : regex) (s : string) : bool :=
  let cs := Py.chars s in
  full_match r cs ||
  match rev cs with
  | c :: before => (c =? newline)%char && full_match r (rev before)
  | [] => false
  end.

(** Character classes. *)
Definition in_range (lo hi c : ascii) : bool :=
  ((lo <=? c) && (c <=? hi))%char.

Definition one_of (s : string) (c : ascii) : bool :=
  existsb (fun x => (x =? c)%char) (Py.chars s).

(** [\d] matches the Unicode decimal digits; below code point 256, the
    characters of the embedding, these are 0-9. *)
Definition digit (c : ascii) : bool := in_range "0" "9" c.

(** [[A-Za-z]] *)
Definition alpha (c : ascii) : bool :=
  in_range "A" "Z" c || in_range "a" "z" c.

(** [[A-Za-z0-9._%+-]] *)
Definition local_char (c : ascii) : bool :=
  in_range "A" "Z" c || in_range "a" "z" c || in_range "0" "9" c ||
  one_of "._%+-" c.

(** [[A-Za-z0-9.-]] *)
Definition domain_char (c : ascii) : bool :=
  in_range "A" "Z" c || in_range "a" "z" c || in_range "0" "9" c ||
  one_of ".-" c.

End Re.

(* ------------------------------------------------------------------ *)
(** ** Validation functions *)

(** [[A-Za-z0-9._%+-]+@[A-Za-z0-9.-]+\.[A-Za-z]{2,}] between [^] and [$]. *)
Definition email_pattern : Re.regex :=
  Re.Cat (Re.Plus (Re.Cls Re.local_char))
 (Re.Cat (Re.Chr "@")
 (Re.Cat (Re.Plus (Re.Cls Re.domain_char))
 (Re.Cat (Re.Chr ".")
         (Re.AtLeast 2 (Re.Cls Re.alpha))))).

Definition is_valid_email (email : string) : bool :=
  Re.match_anchored email_pattern email.

(** [\+?\d{10,15}] between [^] and [$]. *)
Definition phone_pattern : Re.regex :=
  Re.Cat (Re.Opt (Re.Chr "+")) (Re.Between 10 15 (Re.Cls Re.digit)).

Definition is_valid_phone (phone : string) : bool :=
  Re.match_anchored phone_pattern phone.

(* ------------------------------------------------------------------ *)
(** ** The SQLite engine, as far as the statements of crudapp.py use it *)

Module Sqlite.

(** A TEXT column holds NULL or a string. *)
Definition value := option string.

(** SQL truth values: [None] is NULL (unknown). *)
Definition tv := option bool.

Definition tv_or (a b : tv) : tv :=
  match a, b with
  | Some true, _ | _, Some true => Some true
  | Some false, Some false => Some false
  | _, _ => None
  end.

Definition tv_and (a b : tv) : tv :=
  match a, b with
  | Some false, _ | _, Some false => Some false
  | Some true, Some true => Some true
  | _, _ => None
  end.

(** A WHERE clause keeps a row only when it evaluates to true. *)
Definition holds (a : tv) : bool :=
  match a with
  | Some true => true
  | _ => false
  end.

(** LIKE folds the case of ASCII letters only. *)
Definition lower (c : ascii) : ascii :=
  if (("A" <=? c) && (c <=? "Z"))%char
  then ascii_of_nat (nat_of_ascii c + 32)
  else c.

(** The engine reads the two operands of LIKE as C strings: each ends at
    its first NUL character, whatever follows it in the stored text. *)
Fixpoint c_string (s : list ascii) : list ascii :=
  match s with
  | [] => []
  | c :: s' => if (c =? zero)%char then [] else c :: c_string s'
  end.

(** [wildcard_match p s]: does pattern [p] match all of [s]?  [%] stands for
    any run of characters, [_] for exactly one; there is no ESCAPE clause. *)
Fixpoint wildcard_match (p : list ascii) : list ascii -> bool :=
  match p with
  | [] => fun s => match s with [] => true | _ :: _ => false end
  | c :: p' =>
      if (c =? "%")%char then
        fix skip (s : list ascii) : bool :=
          wildcard_match p' s ||
          match s with
          | [] => false
          | _ :: s' => skip s'
          end
      else if (c =? "_")%char then
        fun s => match s with
                 | [] => false
                 | _ :: s' => wildcard_match p' s'
                 end
      else
        fun s => match s with
                 | [] => false
                 | d :: s' => (lower c =? lower d)%char && wildcard_match p' s'
                 end
  end.

(** The comparison behind LIKE, on the characters of a bound pattern and of
    a stored text. *)
Definition like_chars (p s : list ascii) : bool :=
  wildcard_match (c_string p) (c_string s).

(** [x LIKE pat]; NULL LIKE anything is NULL. *)
Definition like (x : value) (pat : string) : tv :=
  option_map (fun s => like_chars (Py.chars pat) (Py.chars s)) x.

(** The length of a text in bytes: it is stored in UTF-8, one byte for a
    character below code point 128 and two up to code point 255. *)
Definition utf8_bytes (s : list ascii) : Z :=
  fold_right (fun c n => ((if (c <? "128")%char then 1 else 2) + n)%Z) 0%Z s.

(** SQLITE_MAX_LIKE_PATTERN_LENGTH.  On a longer pattern the engine raises
    "LIKE or GLOB pattern too complex" instead of comparing; the properties
    of LIKE below are stated for patterns within the limit. *)
Definition like_pattern_limit : Z := 50000.

Definition within_like_limit (pat : string) : bool :=
  (utf8_bytes (Py.chars pat) <=? like_pattern_limit)%Z.

(** An INTEGER parameter is a signed 64-bit integer: binding a Python int
    outside this range raises OverflowError before the statement runs.  The
    functions below that take a [patient_id] are about ids within it. *)
Definition int64 (i : Z) : Prop := (- 2 ^ 63 <= i < 2 ^ 63)%Z.

(** [x = v] under the BINARY collation. *)
Definition equals (x : value) (v : string) : tv :=
  option_map (fun s => (s =? v)%string) x.

End Sqlite.

(* ------------------------------------------------------------------ *)
(** ** The patients table *)

Module Row.

(** One row of [patients] under the migrated schema.  The three columns
    declared NOT NULL hold a string, the others NULL or a string. *)
Record t := mk {
  id : Z;
  first_name : string;
  last_name : string;
  address : Sqlite.value;
  email : string;
  phone : Sqlite.value;
  date_of_birth : Sqlite.value;
  date_of_entry : Sqlite.value
}.

Definition set_date_of_birth (v : Sqlite.value) (r : t) : t :=
  mk (id r) (first_name r) (last_name r) (address r) (email r) (phone r)
     v (date_of_entry r).

Definition set_date_of_entry (v : Sqlite.value) (r : t) : t :=
  mk (id r) (first_name r) (last_name r) (address r) (email r) (phone r)
     (date_of_birth r) v.

End Row.

(** The content of the table: its rows and the AUTOINCREMENT counter that
    SQLite keeps in [sqlite_sequence] (the largest rowid ever handed out). *)
Record table := mkTable {
  rows : list Row.t;
  seq : Z
}.

Definition empty_table : table := mkTable [] 0%Z.

Module Stmt.

Import Sqlite.

(** What sqlite3.IntegrityError carries: [str(e)]. *)
Inductive integrity_error := IntegrityError (msg : string).

Definition email_taken (rs : list Row.t) (e : string) : bool :=
  existsb (fun r => (Row.email r =? e)%string) rs.

(** The constraints of the CREATE TABLE statement, in the order the engine
    tests them: the NOT NULL columns in column order, then UNIQUE(email)
    against the rows [others]. *)
Definition check_constraints (others : list Row.t)
    (first_name last_name email : value)
    : integrity_error + (string * string * string) :=
  match first_name with
  | None => inl (IntegrityError "NOT NULL constraint failed: patients.first_name")
  | Some f =>
  match last_name with
  | None => inl (IntegrityError "NOT NULL constraint failed: patients.last_name")
  | Some l =>
  match email with
  | None => inl (IntegrityError "NOT NULL constraint failed: patients.email")
  | Some e =>
      if email_taken others e
      then inl (IntegrityError "UNIQUE constraint failed: patients.email")
      else inr (f, l, e)
  end end end.

Definition max_rowid (rs : list Row.t) : Z :=
  fold_right (fun r m => Z.max (Row.id r) m) 0%Z rs.

(** INTEGER PRIMARY KEY AUTOINCREMENT: one more than the largest rowid that
    is or ever was in the table. *)
Definition next_rowid (tb : table) : Z :=
  (Z.max (seq tb) (max_rowid (rows tb)) + 1)%Z.

(** INSERT INTO patients (first_name, ..., date_of_entry) VALUES (?, ...). *)
Definition insert (tb : table)
    (first_name last_name address email phone date_of_birth date_of_entry : value)
    : integrity_error + table :=
  match check_constraints (rows tb) first_name last_name email with
  | inl e => inl e
  | inr (f, l, e) =>
      let i := next_rowid tb in
      inr (mkTable
             (rows tb ++ [Row.mk i f l address e phone date_of_birth date_of_entry])
             i)
  end.

Definition has_id (i : Z) (r : Row.t) : bool := (Row.id r =? i)%Z.

(** SELECT * FROM patients WHERE id=? followed by [fetchone()]. *)
Definition select_by_id (tb : table) (i : Z) : option Row.t :=
  find (has_id i) (rows tb).

(** UPDATE patients SET first_name=?, ... WHERE id=?.  No row matching is
    not an error: nothing is checked and nothing changes. *)
Definition update_by_id (tb : table) (i : Z)
    (first_name last_name address email phone date_of_birth date_of_entry : value)
    : integrity_error + table :=
  match select_by_id tb i with
  | None => inr tb
  | Some _ =>
      match check_constraints (filter (fun r => negb (has_id i r)) (rows tb))
                              first_name last_name email with
      | inl e => inl e
      | inr (f, l, e) =>
          inr (mkTable
                 (map (fun r =>
                         if has_id i r
                         then Row.mk i f l address e phone date_of_birth date_of_entry
                         else r)
                      (rows tb))
                 (seq tb))
      end
  end.

(** DELETE FROM patients WHERE id=?. *)
Definition delete_by_id (tb : table) (i : Z) : table :=
  mkTable (filter (fun r => negb (has_id i r)) (rows tb)) (seq tb).

(** ORDER BY id DESC. *)
Fixpoint insert_desc (r : Row.t) (l : list Row.t) : list Row.t :=
  match l with
  | [] => [r]
  | x :: l' =>
      if (Row.id x <? Row.id r)%Z then r :: l else x :: insert_desc r l'
  end.

Definition order_by_id_desc (l : list Row.t) : list Row.t :=
  fold_right insert_desc [] l.

(** The WHERE clauses that search_patients assembles. *)
Inductive cond :=
| CTrue                                                (* 1=1 *)
| CLike (col : Row.t -> value) (pat : string)          (* col LIKE ? *)
| CEq (col : Row.t -> value) (v : string)              (* col = ? *)
| COr (a b : cond)
| CAnd (a b : cond).

Fixpoint eval (c : cond) (r : Row.t) : tv :=
  match c with
  | CTrue => Some true
  | CLike col pat => like (col r) pat
  | CEq col v => equals (col r) v
  | COr a b => tv_or (eval a r) (eval b r)
  | CAnd a b => tv_and (eval a r) (eval b r)
  end.

(** SELECT * FROM patients WHERE c ORDER BY id DESC, then [fetchall()]. *)
Definition select_where (tb : table) (c : cond) : list Row.t :=
  order_by_id_desc (filter (fun r => holds (eval c r)) (rows tb)).

End Stmt.

(* ------------------------------------------------------------------ *)
(** ** Schema manager: init_db and migrate_db *)

(** The database file: whether [patients] exists, its column names as
    PRAGMA table_info lists them, and its content.  A date column that is
    not in [columns] yet reads as NULL in every row. *)
Record database := mkDatabase {
  has_table : bool;
  columns : list string;
  content : table
}.

Definition base_columns : list string :=
  ["id"; "first_name"; "last_name"; "address"; "email"; "phone"].

(** CREATE TABLE IF NOT EXISTS patients (...). *)
Definition create_table_if_not_exists (db : database) : database :=
  if has_table db then db
  else mkDatabase true base_columns empty_table.

Definition mem (c : string) (cols : list string) : bool :=
  existsb (fun x => (x =? c)%string) cols.

(** ALTER TABLE patients ADD COLUMN c TEXT: the new column is NULL in every
    existing row. *)
Definition add_column (c : string) (set : Sqlite.value -> Row.t -> Row.t)
    (db : database) : database :=
  mkDatabase (has_table db) (columns db ++ [c])
    (mkTable (map (set None) (rows (content db))) (seq (content db))).

(** UPDATE patients SET date_of_entry = ? WHERE date_of_entry IS NULL. *)
Definition backfill_row (today_iso : string) (r : Row.t) : Row.t :=
  match Row.date_of_entry r with
  | None => Row.set_date_of_entry (Some today_iso) r
  | Some _ => r
  end.

Definition backfill (today_iso : string) (db : database) : database :=
  mkDatabase (has_table db) (columns db)
    (mkTable (map (backfill_row today_iso) (rows (content db)))
             (seq (content db))).

(** [migrate_db()], with [today_iso] standing for
    [datetime.date.today().isoformat()].  [None] is the uncaught
    sqlite3.OperationalError of ALTER TABLE when [patients] does not exist
    (PRAGMA table_info then lists no column). *)
Definition migrate_db (today_iso : string) (db : database) : option database :=
  if has_table db then
    let existing_cols := columns db in
    let db1 :=
      if negb (mem "date_of_birth" existing_cols)
      then add_column "date_of_birth" Row.set_date_of_birth db else db in
    let db2 :=
      if negb (mem "date_of_entry" existing_cols)
      then add_column "date_of_entry" Row.set_date_of_entry db1 else db1 in
    Some (backfill today_iso db2)
  else None.

(** [init_db()]. *)
Definition init_db (today_iso : string) (db : database) : option database :=
  migrate_db today_iso (create_table_if_not_exists db).

(* ------------------------------------------------------------------ *)
(** ** Record store: the functions of crudapp.py over the migrated table *)

Import Sqlite Stmt.

(** The pair every writing function returns: (success, error message). *)
Definition status := (bool * option string)%type.

Definition on_integrity_error (e : integrity_error) : status :=
  match e with
  | IntegrityError msg =>
      if Py.contains "UNIQUE constraint failed: patients.email" msg
      then (false, Some "Email already exists.")
      else (false, Some msg)
  end.

Definition add_patient (tb : table)
    (first_name last_name address email phone date_of_birth date_of_entry : value)
    : table * status :=
  match insert tb first_name last_name address email phone
               date_of_birth date_of_entry with
  | inr tb' => (tb', (true, None))
  | inl e => (tb, on_integrity_error e)
  end.

Definition get_all_patients (tb : table) : list Row.t :=
  order_by_id_desc (rows tb).

Definition get_patient_by_id (tb : table) (patient_id : Z) : option Row.t :=
  select_by_id tb patient_id.

Definition update_patient (tb : table) (patient_id : Z)
    (first_name last_name address email phone date_of_birth date_of_entry : value)
    : table * status :=
  match update_by_id tb patient_id first_name last_name address email phone
                     date_of_birth date_of_entry with
  | inr tb' => (tb', (true, None))
  | inl e => (tb, on_integrity_error e)
  end.

Definition delete_patient (tb : table) (patient_id : Z) : table :=
  delete_by_id tb patient_id.

Definition col_first_name (r : Row.t) : value := Some (Row.first_name r).
Definition col_last_name (r : Row.t) : value := Some (Row.last_name r).
Definition col_email (r : Row.t) : value := Some (Row.email r).

(** The statement text grows by one [AND ...] per active filter. *)
Definition search_where (query : string)
    (last_name_filter email_domain_filter : option string) : cond :=
  let sql := CTrue in
  let sql :=
    if Py.truthy query then
      let like_query := ("%" ++ query ++ "%")%string in
      CAnd sql (COr (COr (COr (CLike col_first_name like_query)
                              (CLike col_last_name like_query))
                         (CLike col_email like_query))
                    (CLike Row.phone like_query))
    else sql in
  let sql :=
    match last_name_filter with
    | Some l =>
        if Py.truthy l && negb (l =? "All") then CAnd sql (CEq col_last_name l)
        else sql
    | None => sql
    end in
  let sql :=
    match email_domain_filter with
    | Some d =>
        if Py.truthy d && negb (d =? "All")
        then CAnd sql (CLike col_email ("%@" ++ d)%string)
        else sql
    | None => sql
    end in
  sql.

Definition search_patients (tb : table) (query : string)
    (last_name_filter email_domain_filter : option string) : list Row.t :=
  select_where tb (search_where query last_name_filter email_domain_filter).

(** SELECT DISTINCT email FROM patients. *)
Definition select_distinct_email (tb : table) : list string :=
  nodup string_dec (map Row.email (rows tb)).

Definition get_all_email_domains (tb : table) : list string :=
  let emails := select_distinct_email tb in
  let domains :=
    fold_left (fun domains email =>
                 if Py.contains "@" email
                 then Py.set_add (nth 1 (Py.split "@" email) "") domains
                 else domains)
              emails [] in
  Py.sorted domains.

(** SELECT DISTINCT last_name FROM patients ORDER BY last_name.  The BINARY
    collation orders text by code point, as Python orders strings. *)
Definition select_distinct_last_name (tb : table) : list string :=
  Py.sorted (nodup string_dec (map Row.last_name (rows tb))).

Definition get_all_last_names (tb : table) : list string :=
  filter Py.truthy (select_distinct_last_name tb).

(* ------------------------------------------------------------------ *)
(** ** What the form handlers use of Python: [strip] and [isoformat] *)

Module PyStr.

(** [c.isspace()], for the characters below code point 256: tab to
    carriage return, the four separators before the space, the space,
    next-line and the no-break space. *)
Definition is_space (c : ascii) : bool :=
  let n := nat_of_ascii c in
  (Nat.leb 9 n && Nat.leb n 13) || (Nat.leb 28 n && Nat.leb n 32)
  || Nat.eqb n 133 || Nat.eqb n 160.

Fixpoint lstrip_chars (s : list ascii) : list ascii :=
  match s with
  | [] => []
  | c :: s' => if is_space c then lstrip_chars s' else s
  end.

Definition strip_chars (s : list ascii) : list ascii :=
  rev (lstrip_chars (rev (lstrip_chars s))).

(** [s.strip()]. *)
Definition strip (s : string) : string := Py.str (strip_chars (Py.chars s)).

(** Truthiness of a value that is [None] or a string. *)
Definition truthy_opt (o : option string) : bool :=
  match o with
  | None => false
  | Some s => Py.truthy s
  end.

End PyStr.

Module Date.

(** A [datetime.date]. *)
Record t := mk { year : nat; month : nat; day : nat }.

Definition decimal (n : nat) : string :=
  DecimalString.NilEmpty.string_of_uint (Nat.to_uint n).

Fixpoint zeros (k : nat) : string :=
  match k with
  | O => ""
  | S k' => String "0" (zeros k')
  end.

(** [%0<width>d]. *)
Definition zero_padded (width n : nat) : string :=
  (zeros (Nat.sub width (String.length (decimal n))) ++ decimal n)%string.

(** [d.isoformat()]: YYYY-MM-DD. *)
Definition isoformat (d : t) : string :=
  (zero_padded 4 (year d) ++ "-" ++ zero_padded 2 (month d) ++ "-"
   ++ zero_padded 2 (day d))%string.

End Date.

(* ------------------------------------------------------------------ *)
(** ** The form handlers *)

(** What a handler shows: the texts of [st.error] and [st.success]. *)
Inductive notice :=
| FirstNameRequired          (* error: First name is required. *)
| LastNameRequired           (* error: Last name is required. *)
| EmailRequired              (* error: Email is required. *)
| InvalidEmailFormat         (* error: Invalid email format. *)
| InvalidPhoneFormat         (* error: Phone must be 10-15 digits, optional '+' at start. *)
| DateOfEntryRequired        (* error: Date of Entry is required. *)
| Added                      (* success: Patient added successfully! *)
| AddFailed (error : option string)     (* error: Error adding patient: {error} *)
| Updated                    (* success: Patient updated successfully! *)
| UpdateFailed (error : option string)  (* error: Error updating patient: {error} *)
| Deleted.                   (* success: Patient deleted successfully! *)

(** The checks both forms run on submit, in the order they append to
    [errors].  The text inputs are the strings the widgets return; the date
    inputs are a date or [None]. *)
Definition form_errors (first_name last_name email phone : string)
    (doe_str : option string) : list notice :=
  let errors := [] in
  let errors :=
    if negb (Py.truthy (PyStr.strip first_name))
    then errors ++ [FirstNameRequired] else errors in
  let errors :=
    if negb (Py.truthy (PyStr.strip last_name))
    then errors ++ [LastNameRequired] else errors in
  let errors :=
    if negb (Py.truthy (PyStr.strip email)) then errors ++ [EmailRequired]
    else if negb (is_valid_email (PyStr.strip email))
         then errors ++ [InvalidEmailFormat] else errors in
  let errors :=
    if Py.truthy (PyStr.strip phone) then
      if negb (is_valid_phone (PyStr.strip phone))
      then errors ++ [InvalidPhoneFormat] else errors
    else errors in
  let errors :=
    if negb (PyStr.truthy_opt doe_str)
    then errors ++ [DateOfEntryRequired] else errors in
  errors.

(** Submitting the form "add_patient_form". *)
Definition add_patient_form (tb : table)
    (first_name last_name address email phone : string)
    (dob_date doe_date : option Date.t) : table * list notice :=
  let dob_str := option_map Date.isoformat dob_date in
  let doe_str := option_map Date.isoformat doe_date in
  let errors := form_errors first_name last_name email phone doe_str in
  match errors with
  | _ :: _ => (tb, errors)
  | [] =>
      let '(tb', (success, error)) :=
        add_patient tb (Some (PyStr.strip first_name)) (Some (PyStr.strip last_name))
                    (Some (PyStr.strip address)) (Some (PyStr.strip email))
                    (Some (PyStr.strip phone)) dob_str doe_str in
      if success then (tb', [Added]) else (tb', [AddFailed error])
  end.

(** The two submit buttons of the form "edit_patient_form_<id>". *)
Inductive button := UpdateButton | DeleteButton.

(** Submitting the edit form of the selected patient; the form is only
    there when [get_patient_by_id] finds the patient. *)
Definition edit_patient_form (tb : table) (selected_id : Z) (pressed : button)
    (new_first_name new_last_name new_address new_email new_phone : string)
    (new_dob new_doe : option Date.t) : table * list notice :=
  match get_patient_by_id tb selected_id with
  | None => (tb, [])
  | Some patient =>
      match pressed with
      | UpdateButton =>
          let new_dob_str := option_map Date.isoformat new_dob in
          let new_doe_str := option_map Date.isoformat new_doe in
          let errors :=
            form_errors new_first_name new_last_name new_email new_phone
                        new_doe_str in
          match errors with
          | _ :: _ => (tb, errors)
          | [] =>
              let '(tb', (success, error)) :=
                update_patient tb selected_id
                  (Some (PyStr.strip new_first_name))
                  (Some (PyStr.strip new_last_name))
                  (Some (PyStr.strip new_address))
                  (Some (PyStr.strip new_email))
                  (Some (PyStr.strip new_phone))
                  new_dob_str new_doe_str in
              if success then (tb', [Updated]) else (tb', [UpdateFailed error])
          end
      | DeleteButton => (delete_patient tb selected_id, [Deleted])
      end
  end.

(* ------------------------------------------------------------------ *)
(** ** What the patient selector uses of Python *)

Module PyText.

(** [s.split(sep)] for a separator of one or more characters: the pieces
    between the occurrences of [sep], found from left to right without
    overlap.  [skip] counts the characters of a found separator still to
    pass; [cur] is the piece being read, last character first. *)
Fixpoint split_on_aux (sep : list ascii) (skip : nat) (cur s : list ascii)
    : list (list ascii) :=
  match s with
  | [] => [rev cur]
  | c :: s' =>
      match skip with
      | S k => split_on_aux sep k cur s'
      | O =>
          if Py.starts_with sep s
          then rev cur :: split_on_aux sep (List.length sep - 1) [] s'
          else split_on_aux sep 0 (c :: cur) s'
      end
  end.

Definition split_on (sep s : string) : list string :=
  map Py.str (split_on_aux (Py.chars sep) 0 [] (Py.chars s)).

(** [s.replace(c, "")] for a one-character [c]. *)
Definition remove (c : ascii) (s : string) : string :=
  Py.str (filter (fun x => negb (x =? c)%char) (Py.chars s)).

(** The decimal digits of a natural number. *)
Definition str_of_nat (n : nat) : string :=
  DecimalString.NilEmpty.string_of_uint (Nat.to_uint n).

(** [str(z)], also what an f-string writes for an integer (a 64-bit rowid
    stays far below the interpreter's limit on the number of digits). *)
Definition str_of_int (z : Z) : string :=
  if (z <? 0)%Z then String "-" (str_of_nat (Z.to_nat (- z)))
  else str_of_nat (Z.to_nat z).

Definition digit_value (c : ascii) : option nat :=
  if Re.digit c then Some (nat_of_ascii c - 48)%nat else None.

(** Decimal digits, with single underscores allowed between digits. *)
Fixpoint parse_digits (acc : nat) (after_digit : bool) (s : list ascii)
    : option nat :=
  match s with
  | [] => if after_digit then Some acc else None
  | c :: s' =>
      if (c =? "_")%char then
        if after_digit then parse_digits acc false s' else None
      else
        match digit_value c with
        | Some d => parse_digits (10 * acc + d)%nat true s'
        | None => None
        end
  end.

(** The white space [int] skips around a number: tab to carriage return and
    the space, and next-line and the no-break space, which it reads as
    spaces.  The four separators before the space, which [strip] removes,
    are not among them. *)
Definition is_int_space (c : ascii) : bool :=
  let n := nat_of_ascii c in
  (Nat.leb 9 n && Nat.leb n 13) || Nat.eqb n 32
  || Nat.eqb n 133 || Nat.eqb n 160.

Fixpoint skip_int_space (s : list ascii) : list ascii :=
  match s with
  | [] => []
  | c :: s' => if is_int_space c then skip_int_space s' else s
  end.

Definition without_int_space (s : list ascii) : list ascii :=
  rev (skip_int_space (rev (skip_int_space s))).

(** [int(s)] in base 10; [None] is ValueError.  Surrounding white space and
    one sign are allowed. *)
Definition int_of_str (s : string) : option Z :=
  match without_int_space (Py.chars s) with
  | [] => None
  | c :: ds =>
      if (c =? "-")%char
      then option_map (fun n => (- Z.of_nat n)%Z) (parse_digits 0 false ds)
      else if (c =? "+")%char
           then option_map Z.of_nat (parse_digits 0 false ds)
           else option_map Z.of_nat (parse_digits 0 false (c :: ds))
  end.

End PyText.

(* ------------------------------------------------------------------ *)
(** ** The patient selector *)

(** One entry of [patient_options]:
    f"{row['first_name']} {row['last_name']} (ID: {row['id']})". *)
Definition patient_option (row : Row.t) : string :=
  (Row.first_name row ++ " " ++ Row.last_name row ++ " (ID: "
   ++ PyText.str_of_int (Row.id row) ++ ")")%string.

(** [int(selected_patient.split("ID: ")[1].replace(")", ""))]; [None] is
    the IndexError or ValueError the expression raises. *)
Definition selected_id (selected_patient : string) : option Z :=
  match PyText.split_on "ID: " selected_patient with
  | _ :: piece :: _ => PyText.int_of_str (PyText.remove ")" piece)
  | _ => None
  end.

(* ================================================================== *)
(** * Vocabulary of the properties *)

Import Re.

(** ** Sample tables *)

Definition smith_a : Row.t :=
  Row.mk 1 "Ann" "Smith" None "a@x.com" None None (Some "2024-01-01").
Definition smith_b : Row.t :=
  Row.mk 2 "Bob" "Smith" None "b@y.com" None None (Some "2024-01-01").
Definition jones_c : Row.t :=
  Row.mk 3 "Cy" "Jones" None "c@x.com" (Some "5551234567") None (Some "2024-01-01").

Definition three_patients : table := mkTable [smith_a; smith_b; jones_c] 3.

(** An email whose domain is written in capitals. *)
Definition upper_case_domain : table :=
  mkTable [Row.mk 1 "Ann" "Smith" None "a@X.COM" None None (Some "2024-01-01")] 1.

(** A table from before the migration: one row, no date columns. *)
Definition legacy_database : database :=
  mkDatabase true base_columns
    (mkTable [Row.mk 1 "Ann" "Smith" None "a@x.com" None None None] 1).

(** Ten digits, and a well-formed address, each followed by a newline. *)
Definition phone_with_newline : string :=
  ("1234567890" ++ String newline "")%string.

Definition email_with_newline : string :=
  ("a@b.co" ++ String newline "")%string.

(** ** Order of the result lists *)

(** Newest first by id. *)
Definition newer_or_same (a b : Row.t) : Prop := (Row.id b <= Row.id a)%Z.

Definition str_le (a b : string) : Prop := (a <=? b)%string = true.
Definition str_lt (a b : string) : Prop := (a <? b)%string = true.

(** ** The date_of_entry invariant *)

Definition no_null_date_of_entry (tb : table) : Prop :=
  forall r, In r (rows tb) -> Row.date_of_entry r <> None.

(** What a row's date_of_entry reads as before the migration. *)
Definition date_of_entry_before (db : database) (r : Row.t) : Sqlite.value :=
  if mem "date_of_entry" (columns db) then Row.date_of_entry r else None.

(** The calls the form handlers make on the record store. *)
Inductive call :=
| Add (first_name last_name address email phone date_of_birth date_of_entry : value)
| Update (patient_id : Z)
         (first_name last_name address email phone date_of_birth date_of_entry : value)
| Delete (patient_id : Z).

Definition run (tb : table) (c : call) : table :=
  match c with
  | Add fn ln addr em ph dob doe => fst (add_patient tb fn ln addr em ph dob doe)
  | Update i fn ln addr em ph dob doe =>
      fst (update_patient tb i fn ln addr em ph dob doe)
  | Delete i => delete_patient tb i
  end.

(** The handlers refuse a missing date of entry ("Date of Entry is
    required.") before they call the store. *)
Definition dated (c : call) : Prop :=
  match c with
  | Add _ _ _ _ _ _ doe => doe <> None
  | Update _ _ _ _ _ _ _ doe => doe <> None
  | Delete _ => True
  end.

Definition sample_calls : list call :=
  [Add (Some "Dee") (Some "Doe") None (Some "d@z.org") None None (Some "2024-02-02");
   Update 1 (Some "Ann") (Some "Smythe") None (Some "a@x.com") None None
          (Some "2024-03-03");
   Delete 2].

(** ** Searching *)

(** A character that LIKE reads literally. *)
Definition literal (c : ascii) : Prop := c <> "%"%char /\ c <> "_"%char.

(** A string that LIKE reads whole and literally: no wildcard and no NUL
    character in it. *)
Definition plain (s : string) : Prop :=
  Forall literal (Py.chars s) /\ ~ In zero (Py.chars s).

(** What LIKE reads of a stored text: its characters up to the first NUL. *)
Definition text_read (s : string) : list ascii := c_string (Py.chars s).

(** The patterns a search binds are within the length limit of LIKE. *)
Definition patterns_fit (query : string) (email_domain_filter : option string)
    : Prop :=
  within_like_limit ("%" ++ query ++ "%") = true /\
  (forall v, email_domain_filter = Some v ->
             within_like_limit ("%@" ++ v) = true).

(** Equal up to the case of ASCII letters. *)
Definition same_nocase (a b : list ascii) : Prop := map lower a = map lower b.

(** [s LIKE '%' || q || '%'] for a plain [q]: [q] occurs in what LIKE reads
    of [s], up to the case of ASCII letters. *)
Definition occurs_nocase (q s : string) : Prop :=
  exists pre mid post,
    text_read s = pre ++ mid ++ post /\ same_nocase (Py.chars q) mid.

(** [s LIKE '%' || suffix] for a plain suffix. *)
Definition ends_nocase (suffix s : string) : Prop :=
  exists pre fin, text_read s = pre ++ fin /\ same_nocase (Py.chars suffix) fin.

(** A filter argument that switches its filter on: a string other than the
    empty one and the "All" of the select boxes ([None] is the default). *)
Definition active (o : option string) (v : string) : Prop :=
  o = Some v /\ v <> "" /\ v <> "All".

(** The rows a search keeps, in the words of the filters. *)
Definition keeps (query : string) (last_name_filter email_domain_filter : option string)
    (r : Row.t) : Prop :=
  (query <> "" ->
   occurs_nocase query (Row.first_name r) \/
   occurs_nocase query (Row.last_name r) \/
   occurs_nocase query (Row.email r) \/
   exists p, Row.phone r = Some p /\ occurs_nocase query p) /\
  (forall v, active last_name_filter v -> Row.last_name r = v) /\
  (forall v, active email_domain_filter v -> ends_nocase ("@" ++ v) (Row.email r)).

(** Ending with a suffix, compared character by character. *)
Definition ends_with (suffix s : string) : Prop :=
  exists pre, Py.chars s = pre ++ Py.chars suffix.

(** ** Email domains *)

(** [email.split("@")[1]]. *)
Definition domain (email : string) : string := nth 1 (Py.split "@" email) "".

(** [d] is the text that follows the first "@" of [e], up to the next "@"
    or, when there is none, to the end of [e]. *)
Definition follows_at (e d : string) : Prop :=
  exists local rest,
    Py.chars e = local ++ "@"%char :: Py.chars d ++ rest /\
    ~ In "@"%char local /\
    ~ In "@"%char (Py.chars d) /\
    (rest = [] \/ exists rest', rest = "@"%char :: rest').

(** [d] is a substring of [e] that follows an "@": the rest of [e] after
    one of its "@". *)
Definition after_at (e d : string) : Prop :=
  exists local, Py.chars e = local ++ "@"%char :: Py.chars d.

(** A stored email with two "@". *)
Definition two_at_signs : table :=
  mkTable [Row.mk 1 "Ann" "Smith" None "x@y@z" None None (Some "2024-01-01")] 1.

(** The body of the loop over the emails. *)
Definition collect (domains : list string) (email : string) : list string :=
  if Py.contains "@" email
  then Py.set_add (nth 1 (Py.split "@" email) "") domains
  else domains.

(** ** Regular expressions and the shapes of phone numbers and addresses *)

(** The strings an expression matches. *)
Inductive matches : regex -> list ascii -> Prop :=
| MEps : matches Eps []
| MCls p c : p c = true -> matches (Cls p) [c]
| MCat r1 r2 s1 s2 :
    matches r1 s1 -> matches r2 s2 -> matches (Cat r1 r2) (s1 ++ s2)
| MAltL r1 r2 s : matches r1 s -> matches (Alt r1 r2) s
| MAltR r1 r2 s : matches r2 s -> matches (Alt r1 r2) s
| MStarNil r : matches (Star r) []
| MStarApp r s1 s2 :
    matches r s1 -> matches (Star r) s2 -> matches (Star r) (s1 ++ s2).

(** Every character of [s] is in the class [p]. *)
Definition all_in (p : ascii -> bool) (s : list ascii) : Prop :=
  Forall (fun c => p c = true) s.

(** An optional "+" followed by 10 to 15 decimal digits. *)
Definition phone_shape (s : list ascii) : Prop :=
  exists sign digits,
    s = sign ++ digits /\
    (sign = [] \/ sign = ["+"%char]) /\
    10 <= List.length digits <= 15 /\
    all_in digit digits.

(** local-part "@" domain "." final-label. *)
Definition email_shape (s : list ascii) : Prop :=
  exists local dom tld,
    s = local ++ "@"%char :: dom ++ "."%char :: tld /\
    local <> [] /\ all_in local_char local /\
    dom <> [] /\ all_in domain_char dom /\
    2 <= List.length tld /\ all_in alpha tld.

(** ** The constraints of the table *)

(** PRIMARY KEY and UNIQUE(email) hold, and the AUTOINCREMENT counter is at
    least every rowid in use. *)
Definition wf_table (tb : table) : Prop :=
  NoDup (map Row.id (rows tb)) /\
  NoDup (map Row.email (rows tb)) /\
  (forall r, In r (rows tb) -> (Row.id r <= seq tb)%Z).

(** The row an update writes. *)
Definition overwrite (i : Z) (new : Row.t) (r : Row.t) : Row.t :=
  if has_id i r then new else r.

(** ** Queries with wildcards *)

(** Some stretch of what LIKE reads of [s] matches [q] read as a LIKE
    pattern.  A NUL in [q] ends the pattern [%q%] before its closing [%]:
    then the stretch must be the end of the text. *)
Definition like_within (q s : string) : Prop :=
  exists pre mid post,
    text_read s = pre ++ mid ++ post /\
    wildcard_match (text_read q) mid = true /\
    (In zero (Py.chars q) -> post = []).

(** The end of what LIKE reads of [s] matches [q] read as a LIKE pattern. *)
Definition like_at_end (q s : string) : Prop :=
  exists pre fin,
    text_read s = pre ++ fin /\ wildcard_match (text_read q) fin = true.

(** The rows a search keeps, for any query and filters. *)
Definition keeps_like (query : string)
    (last_name_filter email_domain_filter : option string) (r : Row.t) : Prop :=
  (query <> "" ->
   like_within query (Row.first_name r) \/
   like_within query (Row.last_name r) \/
   like_within query (Row.email r) \/
   exists p, Row.phone r = Some p /\ like_within query p) /\
  (forall v, active last_name_filter v -> Row.last_name r = v) /\
  (forall v, active email_domain_filter v ->
             like_at_end ("@" ++ v) (Row.email r)).

(** ** What the forms store *)

(** A row as the forms write it: names not empty, an email of the email
    shape, a phone that is empty or passes [is_valid_phone], a date of
    entry. *)
Definition form_row (r : Row.t) : Prop :=
  Row.first_name r <> "" /\
  Row.last_name r <> "" /\
  email_shape (Py.chars (Row.email r)) /\
  (Row.phone r = Some "" \/
   exists p, Row.phone r = Some p /\ is_valid_phone p = true) /\
  Row.date_of_entry r <> None.

(** A submit of one of the two forms. *)
Inductive submit :=
| SubmitAdd (first_name last_name address email phone : string)
            (dob_date doe_date : option Date.t)
| SubmitEdit (selected_id : Z) (pressed : button)
             (new_first_name new_last_name new_address new_email new_phone : string)
             (new_dob new_doe : option Date.t).

Definition handle (tb : table) (s : submit) : table :=
  match s with
  | SubmitAdd fn ln addr em ph dob doe =>
      fst (add_patient_form tb fn ln addr em ph dob doe)
  | SubmitEdit i b fn ln addr em ph dob doe =>
      fst (edit_patient_form tb i b fn ln addr em ph dob doe)
  end.

Definition sample_submits : list submit :=
  [SubmitAdd " Dee " "Doe" "" "d@z.org" "+15551230000" None
             (Some (Date.mk 2024 2 2));
   SubmitAdd "" "Roe" "" "not-an-address" "12" None None;
   SubmitEdit 1 UpdateButton "Ann" "Smythe" "" "a@x.com" "" None
              (Some (Date.mk 2024 3 3));
   SubmitEdit 1 UpdateButton "Ann" "Smythe" "" "a@x.com" "" None None;
   SubmitEdit 2 DeleteButton "" "" "" "" "" None None].

(** ** The patient selector *)

(** No occurrence of [sep] starts inside [pre] when [pre] is followed by
    [rest]. *)
Fixpoint unmatched (sep pre rest : list ascii) : Prop :=
  match pre with
  | [] => True
  | _ :: pre' =>
      Py.starts_with sep (pre ++ rest) = false /\ unmatched sep pre' rest
  end.

(** The separator of the selector, "ID: ". *)
Definition id_mark : list ascii := Py.chars "ID: ".

(** A row whose names do not hold the text "ID: ", the space between and
    after them included. *)
Definition plain_names (r : Row.t) : Prop :=
  Py.contains "ID: " (Row.first_name r ++ " " ++ Row.last_name r ++ " ")%string
  = false.

(** The text [q] occurs, character for character, in what LIKE reads of one
    of the four fields a search looks at. *)
Definition occurs_in_field (q : string) (r : Row.t) : Prop :=
  exists s,
    (s = Row.first_name r \/ s = Row.last_name r \/ s = Row.email r \/
     Row.phone r = Some s) /\
    exists pre post, text_read s = pre ++ Py.chars q ++ post.

(* ================================================================== *)
(** * Properties *)

(** ** Lists of rows *)

Lemma find_app {A} (f : A -> bool) (l1 l2 : list A) :
  find f (l1 ++ l2) =
  match find f l1 with
  | Some x => Some x
  | None => find f l2
  end.
Proof.
  induction l1 as [|a l1 IH]; simpl; [reflexivity|].
  destruct (f a); [reflexivity | exact IH].
Qed.

Lemma find_absent {A} (f : A -> bool) (l : list A) :
  (forall x, In x l -> f x = false) -> find f l = None.
Proof.
  induction l as [|a l IH]; simpl; intros H; [reflexivity|].
  rewrite (H a (or_introl Logic.eq_refl)). apply IH. intros x Hx. apply H. now right.
Qed.

Lemma has_id_false i r : Row.id r <> i -> has_id i r = false.
Proof. unfold has_id. intros H. now apply Z.eqb_neq. Qed.

Lemma select_by_id_absent tb i :
  (forall r, In r (rows tb) -> Row.id r <> i) -> select_by_id tb i = None.
Proof.
  intros H. unfold select_by_id. apply find_absent.
  intros r Hr. apply has_id_false. now apply H.
Qed.

Lemma max_rowid_ge rs r : In r rs -> (Row.id r <= max_rowid rs)%Z.
Proof.
  induction rs as [|a rs IH]; simpl; [tauto|].
  intros [->|H]; [lia|]. specialize (IH H). lia.
Qed.

Lemma next_rowid_fresh tb r : In r (rows tb) -> (Row.id r < next_rowid tb)%Z.
Proof.
  intros H. apply max_rowid_ge in H. unfold next_rowid. lia.
Qed.

Lemma email_taken_false rs e :
  email_taken rs e = false <-> (forall r, In r rs -> Row.email r <> e).
Proof.
  unfold email_taken. split.
  - intros H r Hr Heq.
    assert (existsb (fun r0 => (Row.email r0 =? e)%string) rs = true) as Ht.
    { apply existsb_exists. exists r. split; [exact Hr|]. now apply String.eqb_eq. }
    congruence.
  - intros H. apply not_true_is_false. intros Ht.
    apply existsb_exists in Ht. destruct Ht as [r [Hr Heq]].
    apply String.eqb_eq in Heq. exact (H r Hr Heq).
Qed.

Lemma email_taken_true rs e :
  email_taken rs e = true <-> (exists r, In r rs /\ Row.email r = e).
Proof.
  unfold email_taken. rewrite existsb_exists. split.
  - intros [r [Hr Heq]]. exists r. split; [exact Hr|]. now apply String.eqb_eq.
  - intros [r [Hr Heq]]. exists r. split; [exact Hr|]. now apply String.eqb_eq.
Qed.

(** ** ORDER BY id DESC *)

Lemma insert_desc_perm r l : Permutation (insert_desc r l) (r :: l).
Proof.
  induction l as [|x l IH]; simpl; [reflexivity|].
  destruct (Row.id x <? Row.id r)%Z; [reflexivity|].
  rewrite IH. apply perm_swap.
Qed.

Lemma order_by_id_desc_perm l : Permutation (order_by_id_desc l) l.
Proof.
  induction l as [|x l IH]; simpl; [reflexivity|].
  rewrite insert_desc_perm. now constructor.
Qed.

Lemma order_by_id_desc_In l r : In r (order_by_id_desc l) <-> In r l.
Proof.
  split; apply Permutation_in;
    [apply order_by_id_desc_perm | symmetry; apply order_by_id_desc_perm].
Qed.

Lemma insert_desc_sorted r l :
  StronglySorted newer_or_same l -> StronglySorted newer_or_same (insert_desc r l).
Proof.
  induction 1 as [|x l Hs IH Hx]; simpl.
  - repeat constructor.
  - destruct (Row.id x <? Row.id r)%Z eqn:E.
    + apply Z.ltb_lt in E. constructor; [now constructor|].
      constructor; [unfold newer_or_same; lia|].
      eapply Forall_impl; [|exact Hx]. unfold newer_or_same. intros; lia.
    + apply Z.ltb_ge in E. constructor; [exact IH|].
      rewrite Forall_forall. intros y Hy.
      apply (Permutation_in _ (insert_desc_perm r l)) in Hy.
      destruct Hy as [<-|Hy]; [exact E|].
      rewrite Forall_forall in Hx. now apply Hx.
Qed.

Lemma order_by_id_desc_sorted l : StronglySorted newer_or_same (order_by_id_desc l).
Proof.
  induction l as [|x l IH]; simpl; [constructor|]. now apply insert_desc_sorted.
Qed.

Lemma filter_all {A} (f : A -> bool) (l : list A) :
  (forall x, f x = true) -> filter f l = l.
Proof.
  intros H. induction l as [|a l IH]; simpl; [reflexivity|].
  rewrite H. now f_equal.
Qed.

(* ------------------------------------------------------------------ *)
(** ** update_patient on an id that is not stored *)

(** C1, as stated, fails: on a table that has no row 77 the update returns
    [(True, None)], the success pair. *)
Lemma update_patient_missing_id_reports_success :
  get_patient_by_id three_patients 77 = None /\
  snd (update_patient three_patients 77 (Some "Dee") (Some "Doe") None
         (Some "d@z.org") None None (Some "2024-02-02")) = (true, None).
Proof. split; reflexivity. Qed.

Lemma select_by_id_stored tb i :
  (exists r, In r (rows tb) /\ Row.id r = i) ->
  exists r', select_by_id tb i = Some r'.
Proof.
  intros (r & Hin & Hid). unfold select_by_id.
  destruct (find (has_id i) (rows tb)) as [r'|] eqn:E; [now exists r'|].
  apply (find_none _ _ E) in Hin. unfold has_id in Hin.
  apply Z.eqb_neq in Hin. contradiction.
Qed.

(** C1 (amended): for every id within the 64-bit range of the engine's
    integers that is not the id of a stored row, [update_patient] returns
    the success pair [(True, None)] and leaves the table as it was, whatever
    the fields; there is no not-found result.  On a stored id, the
    integrity failures that are not a duplicate email are the NULLs in the
    three NOT NULL columns, tested in the order first_name, last_name,
    email: each comes back as [(False, message)] with the engine's message
    for the first such column, and the table is left as it was.  Every
    failure [update_patient] returns leaves the table as it was and carries
    one of these three messages or "Email already exists.". *)
Theorem update_patient_missing_id_is_silent :
  forall tb patient_id fn ln addr em ph dob doe,
    int64 patient_id ->
    let res := update_patient tb patient_id fn ln addr em ph dob doe in
    ((forall r, In r (rows tb) -> Row.id r <> patient_id) ->
     res = (tb, (true, None))) /\
    ((exists r, In r (rows tb) /\ Row.id r = patient_id) ->
     (fn = None ->
      res = (tb, (false,
                  Some "NOT NULL constraint failed: patients.first_name"))) /\
     (fn <> None -> ln = None ->
      res = (tb, (false,
                  Some "NOT NULL constraint failed: patients.last_name"))) /\
     (fn <> None -> ln <> None -> em = None ->
      res = (tb, (false,
                  Some "NOT NULL constraint failed: patients.email")))) /\
    (fst (snd res) = false ->
     fst res = tb /\
     (snd (snd res) = Some "NOT NULL constraint failed: patients.first_name" \/
      snd (snd res) = Some "NOT NULL constraint failed: patients.last_name" \/
      snd (snd res) = Some "NOT NULL constraint failed: patients.email" \/
      snd (snd res) = Some "Email already exists.")).
Proof.
  intros tb i fn ln addr em ph dob doe _ res. subst res.
  split; [|split].
  - intros H. unfold update_patient, update_by_id.
    now rewrite (select_by_id_absent tb i H).
  - intros H. destruct (select_by_id_stored tb i H) as [r' Hr'].
    unfold update_patient, update_by_id. rewrite Hr'.
    split; [|split].
    + intros ->. reflexivity.
    + intros Hf ->. destruct fn as [f|]; [reflexivity | contradiction].
    + intros Hf Hl ->. destruct fn as [f|]; [|contradiction].
      destruct ln as [l|]; [reflexivity | contradiction].
  - unfold update_patient, update_by_id.
    destruct (select_by_id tb i) as [r'|]; [|intros H; discriminate H].
    destruct fn as [f|]; [|intros _; split; [reflexivity | tauto]].
    destruct ln as [l|]; [|intros _; split; [reflexivity | tauto]].
    destruct em as [e|]; [|intros _; split; [reflexivity | tauto]].
    unfold check_constraints.
    destruct (email_taken _ e); [intros _; split; [reflexivity | tauto]|].
    intros H; discriminate H.
Qed.

Lemma update_patient_missing_id_is_silent_witness :
  update_patient three_patients 77 None None None (Some "a@x.com") None None None
  = (three_patients, (true, None)) /\
  update_patient three_patients 2 (Some "Bob") None None None None None None
  = (three_patients,
     (false, Some "NOT NULL constraint failed: patients.last_name")) /\
  update_patient three_patients 2 (Some "Bob") (Some "Smith") None None None
                 None None
  = (three_patients, (false, Some "NOT NULL constraint failed: patients.email")).
Proof.
  assert (int64 77) as H77 by (unfold int64; lia).
  assert (int64 2) as H2 by (unfold int64; lia).
  assert (forall r, In r (rows three_patients) -> Row.id r <> 77%Z) as H.
  { simpl. intros r [<-|[<-|[<-|[]]]]; simpl; lia. }
  assert (exists r, In r (rows three_patients) /\ Row.id r = 2%Z) as Hs.
  { exists smith_b. split; [simpl; tauto | reflexivity]. }
  split; [|split].
  - exact (proj1 (update_patient_missing_id_is_silent three_patients 77 None None
                    None (Some "a@x.com") None None None H77) H).
  - destruct (update_patient_missing_id_is_silent three_patients 2 (Some "Bob")
                None None None None None None H2) as (_ & Hb & _).
    apply (proj1 (proj2 (Hb Hs))); [discriminate | reflexivity].
  - destruct (update_patient_missing_id_is_silent three_patients 2 (Some "Bob")
                (Some "Smith") None None None None None H2) as (_ & Hb & _).
    apply (proj2 (proj2 (Hb Hs))); [discriminate | discriminate | reflexivity].
Defined.

(* ------------------------------------------------------------------ *)
(** ** add_patient *)

Lemma insert_accepts tb f l addr e ph dob doe :
  (forall r, In r (rows tb) -> Row.email r <> e) ->
  insert tb (Some f) (Some l) addr (Some e) ph dob doe
  = inr (mkTable (rows tb ++ [Row.mk (next_rowid tb) f l addr e ph dob doe])
                 (next_rowid tb)).
Proof.
  intros H. unfold insert, check_constraints.
  apply email_taken_false in H. now rewrite H.
Qed.

Lemma select_by_id_new tb r sq :
  Row.id r = next_rowid tb ->
  select_by_id (mkTable (rows tb ++ [r]) sq) (next_rowid tb) = Some r.
Proof.
  intros Hid. unfold select_by_id. simpl. rewrite find_app.
  rewrite find_absent.
  - simpl. unfold has_id. rewrite Hid, Z.eqb_refl. reflexivity.
  - intros x Hx. apply has_id_false. apply next_rowid_fresh in Hx. lia.
Qed.

(** What a successful [add_patient] did, read off its success flag. *)
Lemma add_patient_success_inv tb fn ln addr em ph dob doe :
  fst (snd (add_patient tb fn ln addr em ph dob doe)) = true ->
  exists f l e,
    fn = Some f /\ ln = Some l /\ em = Some e /\
    add_patient tb fn ln addr em ph dob doe
    = (mkTable (rows tb ++ [Row.mk (next_rowid tb) f l addr e ph dob doe])
               (next_rowid tb), (true, None)).
Proof.
  unfold add_patient, insert, check_constraints.
  destruct fn as [f|]; [|simpl; discriminate].
  destruct ln as [l|]; [|simpl; discriminate].
  destruct em as [e|]; [|simpl; discriminate].
  destruct (email_taken (rows tb) e); [simpl; discriminate|].
  intros _. exists f, l, e. repeat split; reflexivity.
Qed.

(** C2, as stated, fails: the same fields added to two different tables get
    the ids 1 and 4, and both calls return the same pair [(True, None)]; the
    returned value is the success flag and holds no id. *)
Lemma add_patient_returns_flag_not_id :
  let add tb := add_patient tb (Some "Dee") (Some "Doe") None (Some "d@z.org")
                            None None (Some "2024-02-02") in
  snd (add empty_table) = (true, None) /\
  snd (add three_patients) = (true, None) /\
  map Row.id (rows (fst (add empty_table))) = [1%Z] /\
  map Row.id (rows (fst (add three_patients))) = [1%Z; 2%Z; 3%Z; 4%Z].
Proof. repeat split; reflexivity. Qed.

(** C2 (amended): for all fields whose first name, last name and email are
    present and whose email is the email of no stored row, [add_patient]
    succeeds: it appends the row under the next AUTOINCREMENT id, an id no
    stored row has and that [get_patient_by_id] then finds, and it returns
    the pair [(True, None)], the success flag and not the id. *)
Theorem add_patient_succeeds_with_flag :
  forall tb f l addr e ph dob doe,
    (forall r, In r (rows tb) -> Row.email r <> e) ->
    let new_row := Row.mk (next_rowid tb) f l addr e ph dob doe in
    let res := add_patient tb (Some f) (Some l) addr (Some e) ph dob doe in
    snd res = (true, None) /\
    rows (fst res) = rows tb ++ [new_row] /\
    (forall r, In r (rows tb) -> Row.id r <> Row.id new_row) /\
    get_patient_by_id (fst res) (Row.id new_row) = Some new_row.
Proof.
  intros tb f l addr e ph dob doe H new_row res.
  subst res. unfold add_patient. rewrite (insert_accepts _ _ _ _ _ _ _ _ H).
  simpl. repeat split.
  - intros r Hr. apply next_rowid_fresh in Hr. lia.
  - unfold get_patient_by_id. now apply select_by_id_new.
Qed.

Lemma add_patient_succeeds_with_flag_witness :
  snd (add_patient three_patients (Some "Dee") (Some "Doe") None (Some "d@z.org")
                   None None None) = (true, None).
Proof.
  assert (forall r, In r (rows three_patients) -> Row.email r <> "d@z.org") as H.
  { simpl. intros r [<-|[<-|[<-|[]]]]; simpl; discriminate. }
  exact (proj1 (add_patient_succeeds_with_flag three_patients "Dee" "Doe" None
                  "d@z.org" None None None H)).
Defined.

(** C8: when [add_patient] accepts the fields, the table gains exactly one
    row, and [get_patient_by_id] at that row's id returns it with every
    stored field equal to the field passed in. *)
Theorem add_then_get_round_trip :
  forall tb fn ln addr em ph dob doe,
    fst (snd (add_patient tb fn ln addr em ph dob doe)) = true ->
    exists r,
      rows (fst (add_patient tb fn ln addr em ph dob doe)) = rows tb ++ [r] /\
      get_patient_by_id (fst (add_patient tb fn ln addr em ph dob doe)) (Row.id r)
      = Some r /\
      Some (Row.first_name r) = fn /\
      Some (Row.last_name r) = ln /\
      Row.address r = addr /\
      Some (Row.email r) = em /\
      Row.phone r = ph /\
      Row.date_of_birth r = dob /\
      Row.date_of_entry r = doe.
Proof.
  intros tb fn ln addr em ph dob doe Hok.
  destruct (add_patient_success_inv _ _ _ _ _ _ _ _ Hok)
    as (f & l & e & -> & -> & -> & Heq).
  rewrite Heq. simpl.
  exists (Row.mk (next_rowid tb) f l addr e ph dob doe).
  repeat split. unfold get_patient_by_id. now apply select_by_id_new.
Qed.

Lemma add_then_get_round_trip_witness :
  exists r,
    get_patient_by_id
      (fst (add_patient three_patients (Some "Dee") (Some "Doe") (Some "1 Elm St")
              (Some "d@z.org") (Some "+15551230000") None (Some "2024-02-02")))
      (Row.id r) = Some r /\
    Row.address r = Some "1 Elm St" /\ Row.date_of_birth r = None.
Proof.
  destruct (add_then_get_round_trip three_patients (Some "Dee") (Some "Doe")
              (Some "1 Elm St") (Some "d@z.org") (Some "+15551230000") None
              (Some "2024-02-02") Logic.eq_refl)
    as (r & _ & Hget & _ & _ & Ha & _ & _ & Hb & _).
  exists r. repeat split; assumption.
Defined.

(** C4, as stated, fails: with the first name missing, an email that is
    already stored is answered with the engine's NOT NULL message, not with
    the duplicate-email message (NOT NULL is tested before UNIQUE). *)
Lemma add_patient_duplicate_email_null_name :
  In smith_a (rows three_patients) /\ Row.email smith_a = "a@x.com" /\
  add_patient three_patients None (Some "Doe") None (Some "a@x.com") None None
              (Some "2024-02-02")
  = (three_patients,
     (false, Some "NOT NULL constraint failed: patients.first_name")).
Proof. repeat split. simpl. now left. Qed.

(** C4 (amended): for every table and all fields whose email is the email of
    a stored row, [add_patient] fails and leaves the table as it was.  The
    error is the duplicate-email message "Email already exists." when first
    and last name are present.  With the first name missing it is the
    engine's message "NOT NULL constraint failed: patients.first_name", and
    with the first name present and the last name missing it is
    "NOT NULL constraint failed: patients.last_name". *)
Theorem add_patient_duplicate_email :
  forall tb fn ln addr e ph dob doe,
    (exists r, In r (rows tb) /\ Row.email r = e) ->
    add_patient tb fn ln addr (Some e) ph dob doe
    = (tb,
       (false,
        Some match fn, ln with
             | None, _ => "NOT NULL constraint failed: patients.first_name"
             | Some _, None => "NOT NULL constraint failed: patients.last_name"
             | Some _, Some _ => "Email already exists."
             end)).
Proof.
  intros tb fn ln addr e ph dob doe H.
  apply email_taken_true in H.
  unfold add_patient, insert, check_constraints.
  destruct fn as [f|]; [|reflexivity].
  destruct ln as [l|]; [|reflexivity].
  rewrite H. reflexivity.
Qed.

Lemma add_patient_duplicate_email_witness :
  add_patient three_patients (Some "Dee") (Some "Doe") None (Some "b@y.com")
              None None (Some "2024-02-02")
  = (three_patients, (false, Some "Email already exists.")) /\
  add_patient three_patients (Some "Dee") None None (Some "b@y.com")
              None None (Some "2024-02-02")
  = (three_patients,
     (false, Some "NOT NULL constraint failed: patients.last_name")).
Proof.
  assert (exists r, In r (rows three_patients) /\ Row.email r = "b@y.com") as H.
  { exists smith_b. split; [simpl; tauto | reflexivity]. }
  split.
  - exact (add_patient_duplicate_email three_patients (Some "Dee") (Some "Doe")
             None "b@y.com" None None (Some "2024-02-02") H).
  - exact (add_patient_duplicate_email three_patients (Some "Dee") None
             None "b@y.com" None None (Some "2024-02-02") H).
Defined.

(* ------------------------------------------------------------------ *)
(** ** Schema migration and the date_of_entry invariant *)

Lemma backfill_row_dated today r :
  Row.date_of_entry (backfill_row today r) <> None.
Proof.
  unfold backfill_row. destruct (Row.date_of_entry r) eqn:E; simpl; congruence.
Qed.

Lemma add_patient_keeps_dates tb fn ln addr em ph dob doe :
  doe <> None -> no_null_date_of_entry tb ->
  no_null_date_of_entry (fst (add_patient tb fn ln addr em ph dob doe)).
Proof.
  intros Hd Hinv. unfold add_patient, insert.
  destruct (check_constraints (rows tb) fn ln em) as [err|[[f l] e]];
    simpl; [exact Hinv|].
  intros r Hr. simpl in Hr. apply in_app_or in Hr.
  destruct Hr as [Hr|[<-|[]]]; [now apply Hinv | exact Hd].
Qed.

Lemma update_patient_keeps_dates tb i fn ln addr em ph dob doe :
  doe <> None -> no_null_date_of_entry tb ->
  no_null_date_of_entry (fst (update_patient tb i fn ln addr em ph dob doe)).
Proof.
  intros Hd Hinv. unfold update_patient, update_by_id.
  destruct (select_by_id tb i); [|exact Hinv].
  destruct (check_constraints _ fn ln em) as [err|[[f l] e]]; simpl; [exact Hinv|].
  intros r Hr. simpl in Hr. apply in_map_iff in Hr.
  destruct Hr as [x [Hx Hin]].
  destruct (has_id i x); subst r; [exact Hd | now apply Hinv].
Qed.

Lemma delete_patient_keeps_dates tb i :
  no_null_date_of_entry tb -> no_null_date_of_entry (delete_patient tb i).
Proof.
  intros Hinv r Hr. unfold delete_patient, delete_by_id in Hr. simpl in Hr.
  apply filter_In in Hr. now apply Hinv.
Qed.

Lemma run_keeps_dates tb c :
  dated c -> no_null_date_of_entry tb -> no_null_date_of_entry (run tb c).
Proof.
  destruct c; simpl; intros Hd Hinv.
  - now apply add_patient_keeps_dates.
  - now apply update_patient_keeps_dates.
  - now apply delete_patient_keeps_dates.
Qed.

Lemma runs_keep_dates cs : forall tb,
  Forall dated cs -> no_null_date_of_entry tb ->
  no_null_date_of_entry (fold_left run cs tb).
Proof.
  induction cs as [|c cs IH]; simpl; intros tb Hd Hinv; [exact Hinv|].
  inversion Hd; subst. apply IH; [assumption|]. now apply run_keeps_dates.
Qed.

Lemma Forall2_map_self {A B} (R : A -> B -> Prop) (f : A -> B) (l : list A) :
  (forall x, R x (f x)) -> Forall2 R l (map f l).
Proof.
  intros H. induction l as [|a l IH]; simpl; constructor; [apply H | exact IH].
Qed.

Lemma Forall2_In_right {A B} (R : A -> B -> Prop) l l' y :
  Forall2 R l l' -> In y l' -> exists x, In x l /\ R x y.
Proof.
  induction 1 as [|a b l l' Hab _ IH]; simpl; [tauto|].
  intros [<-|Hy].
  - exists a. tauto.
  - destruct (IH Hy) as [x [Hx HR]]. exists x. tauto.
Qed.

(** The rows after [migrate_db], one by one. *)
Lemma migrate_db_rows today db db' :
  migrate_db today db = Some db' ->
  Forall2 (fun r r' =>
             Row.id r' = Row.id r /\
             Row.first_name r' = Row.first_name r /\
             Row.last_name r' = Row.last_name r /\
             Row.address r' = Row.address r /\
             Row.email r' = Row.email r /\
             Row.phone r' = Row.phone r /\
             Row.date_of_entry r' =
             match date_of_entry_before db r with
             | None => Some today
             | Some d => Some d
             end)
          (rows (content db)) (rows (content db')).
Proof.
  unfold migrate_db, date_of_entry_before.
  destruct (has_table db); [|discriminate].
  intros H. injection H as <-.
  destruct (mem "date_of_birth" (columns db)), (mem "date_of_entry" (columns db));
    simpl; rewrite ?map_map;
    apply Forall2_map_self; intros [i f l a e p dob [d|]];
    unfold backfill_row; simpl; tauto.
Qed.

(** C3, as stated, fails: on a freshly migrated database an add whose
    date_of_entry is [None] stores a row with a NULL date_of_entry (the
    column is nullable; only the form handler refuses a missing date). *)
Lemma add_patient_stores_null_date_of_entry :
  exists db,
    init_db "2024-05-01" (mkDatabase false [] empty_table) = Some db /\
    map Row.date_of_entry
        (rows (fst (add_patient (content db) (Some "Dee") (Some "Doe") None
                      (Some "d@z.org") None None None)))
    = [None].
Proof. eexists. split; reflexivity. Qed.

Lemma migrate_db_dated today db db' :
  migrate_db today db = Some db' -> no_null_date_of_entry (content db').
Proof.
  intros Hm r' Hr'.
  destruct (Forall2_In_right _ _ _ _ (migrate_db_rows _ _ _ Hm) Hr') as (r & _ & Hr).
  destruct Hr as (_ & _ & _ & _ & _ & _ & Hdoe). rewrite Hdoe.
  destruct (date_of_entry_before db r); discriminate.
Qed.

(** [init_db] never raises: the table exists by the time it is altered. *)
Lemma init_db_runs today db :
  exists db', init_db today db = Some db' /\
              (has_table db = true -> migrate_db today db = Some db').
Proof.
  unfold init_db, create_table_if_not_exists.
  destruct (has_table db) eqn:E.
  - unfold migrate_db. rewrite E. eexists. split; [reflexivity|]. reflexivity.
  - eexists. split; [reflexivity | discriminate].
Qed.

(** C3 (amended): [init_db] (table creation, column addition, backfill)
    always completes; when the table was there before, every row that had no
    date_of_entry carries the run's date and the other rows keep theirs; no
    row has a NULL date_of_entry afterwards, and this stays true after any
    sequence of deletes and of adds and updates whose date_of_entry argument
    is not [None]. *)
Theorem init_db_date_of_entry_invariant :
  forall today db calls,
    Forall dated calls ->
    exists db',
      init_db today db = Some db' /\
      (has_table db = true ->
       Forall2 (fun r r' =>
                  Row.id r' = Row.id r /\
                  Row.date_of_entry r' =
                  match date_of_entry_before db r with
                  | None => Some today
                  | Some d => Some d
                  end)
               (rows (content db)) (rows (content db'))) /\
      no_null_date_of_entry (content db') /\
      no_null_date_of_entry (fold_left run calls (content db')).
Proof.
  intros today db calls Hd.
  destruct (init_db_runs today db) as (db' & Hi & Hm).
  exists db'. split; [exact Hi|].
  assert (no_null_date_of_entry (content db')) as Hinv.
  { unfold init_db in Hi. exact (migrate_db_dated _ _ _ Hi). }
  split; [|split; [exact Hinv | now apply runs_keep_dates]].
  intros Ht. eapply Forall2_impl; [|exact (migrate_db_rows _ _ _ (Hm Ht))].
  simpl. intros r r' H. tauto.
Qed.

Lemma init_db_date_of_entry_invariant_witness :
  exists db',
    init_db "2024-05-01" legacy_database = Some db' /\
    map Row.date_of_entry (rows (content db')) = [Some "2024-05-01"] /\
    no_null_date_of_entry (fold_left run sample_calls (content db')).
Proof.
  assert (Forall dated sample_calls) as Hd.
  { repeat constructor; simpl; discriminate. }
  destruct (init_db_date_of_entry_invariant "2024-05-01" legacy_database
              sample_calls Hd) as (db' & Hi & _ & _ & Hruns).
  exists db'. split; [exact Hi|]. split; [|exact Hruns].
  vm_compute in Hi. injection Hi as <-. reflexivity.
Defined.

(* ------------------------------------------------------------------ *)
(** ** LIKE *)

Lemma chars_app a b : Py.chars (a ++ b)%string = Py.chars a ++ Py.chars b.
Proof.
  unfold Py.chars. induction a as [|c a IH]; simpl; [reflexivity|].
  now rewrite IH.
Qed.

Lemma chars_inj a b : Py.chars a = Py.chars b -> a = b.
Proof.
  unfold Py.chars. intros H.
  rewrite <- (string_of_list_ascii_of_string a), <- (string_of_list_ascii_of_string b).
  now rewrite H.
Qed.

Lemma c_string_whole l : ~ In zero l -> c_string l = l.
Proof.
  induction l as [|c l IH]; intros H; cbn [c_string]; [reflexivity|].
  destruct (Ascii.eqb_spec c zero) as [->|_].
  - exfalso. apply H. now left.
  - rewrite IH; [reflexivity|]. intros Hin. apply H. now right.
Qed.

Lemma c_string_app_right a b : ~ In zero a -> c_string (a ++ b) = a ++ c_string b.
Proof.
  induction a as [|c a IH]; intros H; cbn [c_string app]; [reflexivity|].
  destruct (Ascii.eqb_spec c zero) as [->|_].
  - exfalso. apply H. now left.
  - rewrite IH; [reflexivity|]. intros Hin. apply H. now right.
Qed.

Lemma c_string_app_left a b : In zero a -> c_string (a ++ b) = c_string a.
Proof.
  induction a as [|c a IH]; intros H; [destruct H|]. cbn [c_string app].
  destruct (Ascii.eqb_spec c zero) as [->|Hc]; [reflexivity|].
  rewrite IH; [reflexivity|]. destruct H as [H|H]; [congruence | exact H].
Qed.

Lemma c_string_no_nul l : ~ In zero (c_string l).
Proof.
  induction l as [|c l IH]; cbn [c_string]; [intros []|].
  destruct (Ascii.eqb_spec c zero) as [->|Hc]; [intros []|].
  intros [H|H]; [congruence | now apply IH].
Qed.

(** What LIKE reads of the pattern made from a query. *)
Lemma query_pattern_whole q :
  ~ In zero (Py.chars q) ->
  c_string (Py.chars ("%" ++ q ++ "%")%string)
  = "%"%char :: (Py.chars q ++ ["%"%char]).
Proof.
  intros H. rewrite !chars_app. change (Py.chars "%") with ["%"%char].
  apply c_string_whole. cbn [app]. intros [Hz|Hz]; [discriminate Hz|].
  apply in_app_or in Hz. destruct Hz as [Hz|[Hz|[]]]; [now apply H | discriminate Hz].
Qed.

Lemma query_pattern_cut q :
  In zero (Py.chars q) ->
  c_string (Py.chars ("%" ++ q ++ "%")%string) = "%"%char :: text_read q.
Proof.
  intros H. rewrite !chars_app. change (Py.chars "%") with ["%"%char].
  change (["%"%char] ++ Py.chars q ++ ["%"%char])
    with ("%"%char :: (Py.chars q ++ ["%"%char])).
  cbn [c_string]. change ("%"%char =? zero)%char with false. cbv iota.
  now rewrite c_string_app_left.
Qed.

(** What LIKE reads of the pattern made from a domain filter. *)
Lemma domain_pattern_read d :
  c_string (Py.chars ("%@" ++ d)%string) = "%"%char :: "@"%char :: text_read d.
Proof. rewrite chars_app. reflexivity. Qed.

Lemma like_percent p s :
  wildcard_match ("%"%char :: p) s = true <->
  exists pre suf, s = pre ++ suf /\ wildcard_match p suf = true.
Proof.
  simpl. induction s as [|c s IH].
  - rewrite orb_false_r. split.
    + intros H. now exists [], [].
    + intros (pre & suf & Heq & H). symmetry in Heq.
      apply app_eq_nil in Heq. destruct Heq as [_ ->]. exact H.
  - rewrite orb_true_iff, IH. split.
    + intros [H|(pre & suf & -> & H)].
      * now exists [], (c :: s).
      * now exists (c :: pre), suf.
    + intros (pre & suf & Heq & H). destruct pre as [|x pre]; simpl in Heq.
      * left. now subst suf.
      * right. injection Heq as _ ->. now exists pre, suf.
Qed.

Lemma like_literal_cons c p s :
  literal c ->
  wildcard_match (c :: p) s =
  match s with
  | [] => false
  | d :: s' => (lower c =? lower d)%char && wildcard_match p s'
  end.
Proof.
  intros [H1 H2]. simpl.
  apply Ascii.eqb_neq in H1. apply Ascii.eqb_neq in H2.
  rewrite H1, H2. reflexivity.
Qed.

Lemma like_literal p :
  Forall literal p ->
  forall s, wildcard_match p s = true <-> same_nocase p s.
Proof.
  unfold same_nocase. induction 1 as [|c p Hc Hp IH]; intros s.
  - simpl. destruct s; simpl; split; congruence.
  - rewrite (like_literal_cons _ _ _ Hc). destruct s as [|d s]; simpl.
    + split; discriminate.
    + rewrite andb_true_iff, Ascii.eqb_eq, IH. split.
      * intros [-> ->]. reflexivity.
      * intros H. injection H as -> ->. tauto.
Qed.

Lemma like_literal_then_percent p :
  Forall literal p ->
  forall s, wildcard_match (p ++ ["%"%char]) s = true <->
            exists mid post, s = mid ++ post /\ same_nocase p mid.
Proof.
  unfold same_nocase. induction 1 as [|c p Hc Hp IH]; intros s.
  - change ([] ++ ["%"%char]) with ("%"%char :: @nil ascii). rewrite like_percent. split.
    + intros _. now exists [], s.
    + intros _. exists s, []. rewrite app_nil_r. split; reflexivity.
  - change ((c :: p) ++ ["%"%char]) with (c :: (p ++ ["%"%char])).
    rewrite (like_literal_cons _ _ _ Hc). destruct s as [|d s].
    + split; [discriminate|]. intros (mid & post & Heq & Hm).
      destruct mid; simpl in *; discriminate.
    + rewrite andb_true_iff, Ascii.eqb_eq, IH. split.
      * intros [Hcd (mid & post & -> & Hm)].
        exists (d :: mid), post. simpl. rewrite Hcd, Hm. split; reflexivity.
      * intros (mid & post & Heq & Hm). destruct mid as [|x mid]; simpl in Hm;
          [discriminate|].
        simpl in Heq. injection Heq as -> ->. injection Hm as Hcd Hm.
        split; [exact Hcd|]. now exists mid, post.
Qed.

Lemma contains_literal q s :
  Forall literal q ->
  wildcard_match ("%"%char :: (q ++ ["%"%char])) s = true <->
  exists pre mid post, s = pre ++ mid ++ post /\ same_nocase q mid.
Proof.
  intros Hq. rewrite like_percent. split.
  - intros (pre & suf & Heq & H).
    apply (like_literal_then_percent _ Hq) in H.
    destruct H as (mid & post & -> & Hm). now exists pre, mid, post.
  - intros (pre & mid & post & Heq & Hm). exists pre, (mid ++ post).
    split; [exact Heq|]. apply (like_literal_then_percent _ Hq). now exists mid, post.
Qed.

Lemma like_contains q s :
  plain q ->
  like_chars (Py.chars ("%" ++ q ++ "%")%string) (Py.chars s) = true <->
  occurs_nocase q s.
Proof.
  intros [Hq Hz]. unfold like_chars, occurs_nocase, text_read.
  rewrite (query_pattern_whole q Hz). apply (contains_literal _ _ Hq).
Qed.

Lemma like_suffix d s :
  plain d ->
  like_chars (Py.chars ("%@" ++ d)%string) (Py.chars s) = true <->
  ends_nocase ("@" ++ d) s.
Proof.
  intros [Hd Hz]. unfold like_chars, ends_nocase.
  rewrite domain_pattern_read. unfold text_read at 1.
  rewrite (c_string_whole _ Hz). rewrite chars_app.
  change (Py.chars "@") with ["@"%char].
  change (["@"%char] ++ Py.chars d) with ("@"%char :: Py.chars d).
  rewrite like_percent.
  assert (Forall literal ("@"%char :: Py.chars d)) as Hl.
  { constructor; [split; discriminate | exact Hd]. }
  split.
  - intros (pre & suf & Heq & H). exists pre, suf. split; [exact Heq|].
    now apply (like_literal _ Hl).
  - intros (pre & fin & Heq & H). exists pre, fin. split; [exact Heq|].
    now apply (like_literal _ Hl).
Qed.

Lemma holds_and a b : holds (tv_and a b) = holds a && holds b.
Proof. destruct a as [[|]|], b as [[|]|]; reflexivity. Qed.

Lemma holds_or a b : holds (tv_or a b) = holds a || holds b.
Proof. destruct a as [[|]|], b as [[|]|]; reflexivity. Qed.

(* ------------------------------------------------------------------ *)
(** ** search_patients *)

Lemma truthy_true v : Py.truthy v = true <-> v <> "".
Proof.
  unfold Py.truthy. rewrite negb_true_iff. apply String.eqb_neq.
Qed.

Lemma switch_on v :
  Py.truthy v && negb (v =? "All")%string = true <-> v <> "" /\ v <> "All".
Proof.
  rewrite andb_true_iff, truthy_true, negb_true_iff, String.eqb_neq. tauto.
Qed.

Lemma eval_free_text q r :
  plain q ->
  let like_query := ("%" ++ q ++ "%")%string in
  holds (eval (COr (COr (COr (CLike col_first_name like_query)
                             (CLike col_last_name like_query))
                        (CLike col_email like_query))
                   (CLike Row.phone like_query)) r) = true <->
  (occurs_nocase q (Row.first_name r) \/
   occurs_nocase q (Row.last_name r) \/
   occurs_nocase q (Row.email r) \/
   exists p, Row.phone r = Some p /\ occurs_nocase q p).
Proof.
  intros Hq lq. subst lq. cbn [eval].
  rewrite !holds_or, !orb_true_iff.
  unfold col_first_name, col_last_name, col_email, like. simpl option_map.
  assert (forall s, holds (Some (like_chars (Py.chars ("%" ++ q ++ "%")%string)
                                            (Py.chars s))) = true
                    <-> occurs_nocase q s) as Hs.
  { intros s. rewrite <- (like_contains q s Hq).
    destruct (like_chars _ _); simpl; split; congruence. }
  rewrite !Hs.
  assert (holds (option_map (fun s => like_chars (Py.chars ("%" ++ q ++ "%")%string)
                                                 (Py.chars s)) (Row.phone r)) = true
          <-> exists p, Row.phone r = Some p /\ occurs_nocase q p) as Hp.
  { destruct (Row.phone r) as [p|]; simpl option_map.
    - rewrite Hs. split; [intros H; now exists p|].
      intros (p' & Heq & H). now injection Heq as ->.
    - simpl. split; [discriminate|]. intros (p' & Heq & _). discriminate. }
  rewrite Hp. tauto.
Qed.

Lemma eval_query_step q r :
  plain q ->
  holds (eval
           (if Py.truthy q
            then CAnd CTrue
                   (COr (COr (COr (CLike col_first_name ("%" ++ q ++ "%")%string)
                                  (CLike col_last_name ("%" ++ q ++ "%")%string))
                             (CLike col_email ("%" ++ q ++ "%")%string))
                        (CLike Row.phone ("%" ++ q ++ "%")%string))
            else CTrue) r) = true <->
  (q <> "" ->
   occurs_nocase q (Row.first_name r) \/
   occurs_nocase q (Row.last_name r) \/
   occurs_nocase q (Row.email r) \/
   exists p, Row.phone r = Some p /\ occurs_nocase q p).
Proof.
  intros Hq. destruct (Py.truthy q) eqn:E.
  - apply truthy_true in E.
    change (eval (CAnd CTrue ?c) r) with (tv_and (Some true) (eval c r)).
    rewrite holds_and. simpl holds at 1. rewrite andb_true_l.
    rewrite (eval_free_text q r Hq). tauto.
  - assert (q = "") as ->.
    { destruct (String.eqb_spec q ""); [assumption|].
      apply truthy_true in n. congruence. }
    simpl. split; [intros _ H; congruence | reflexivity].
Qed.

Lemma eval_last_name_step l c r :
  holds (eval
           match l with
           | Some v =>
               if Py.truthy v && negb (v =? "All")%string
               then CAnd c (CEq col_last_name v) else c
           | None => c
           end r) = true <->
  holds (eval c r) = true /\ (forall v, active l v -> Row.last_name r = v).
Proof.
  unfold active. destruct l as [v|].
  - destruct (Py.truthy v && negb (v =? "All")%string) eqn:E.
    + apply switch_on in E. cbn [eval]. rewrite holds_and, andb_true_iff.
      unfold equals, col_last_name. simpl.
      assert (holds (Some (Row.last_name r =? v)%string) = true
              <-> Row.last_name r = v) as Hv.
      { rewrite <- String.eqb_eq. destruct (Row.last_name r =? v)%string; simpl;
          split; congruence. }
      rewrite Hv. split.
      * intros [H1 H2]. split; [exact H1|]. intros v' (Heq & _). now injection Heq as <-.
      * intros [H1 H2]. split; [exact H1|]. apply H2. tauto.
    + split; [|tauto]. intros H. split; [exact H|].
      intros v' (Heq & Hne). injection Heq as <-.
      apply switch_on in Hne. congruence.
  - split; [|tauto]. intros H. split; [exact H|]. intros v (Heq & _). discriminate.
Qed.

Lemma eval_email_domain_step d c r :
  (forall v, d = Some v -> plain v) ->
  holds (eval
           match d with
           | Some v =>
               if Py.truthy v && negb (v =? "All")%string
               then CAnd c (CLike col_email ("%@" ++ v)%string) else c
           | None => c
           end r) = true <->
  holds (eval c r) = true /\
  (forall v, active d v -> ends_nocase ("@" ++ v) (Row.email r)).
Proof.
  unfold active. intros Hd. destruct d as [v|].
  - destruct (Py.truthy v && negb (v =? "All")%string) eqn:E.
    + apply switch_on in E. cbn [eval]. rewrite holds_and, andb_true_iff.
      unfold like, col_email. simpl option_map.
      assert (holds (Some (like_chars (Py.chars ("%@" ++ v)%string)
                                      (Py.chars (Row.email r)))) = true
              <-> ends_nocase ("@" ++ v) (Row.email r)) as Hv.
      { rewrite <- (like_suffix v _ (Hd v Logic.eq_refl)).
        destruct (like_chars _ _); simpl; split; congruence. }
      rewrite Hv. split.
      * intros [H1 H2]. split; [exact H1|]. intros v' (Heq & _). now injection Heq as <-.
      * intros [H1 H2]. split; [exact H1|]. apply H2. tauto.
    + split; [|tauto]. intros H. split; [exact H|].
      intros v' (Heq & Hne). injection Heq as <-.
      apply switch_on in Hne. congruence.
  - split; [|tauto]. intros H. split; [exact H|]. intros v (Heq & _). discriminate.
Qed.

Lemma search_where_keeps q l d r :
  plain q -> (forall v, d = Some v -> plain v) ->
  holds (eval (search_where q l d) r) = true <-> keeps q l d r.
Proof.
  intros Hq Hd. unfold search_where, keeps. cbv zeta.
  rewrite (eval_email_domain_step d _ r Hd).
  rewrite (eval_last_name_step l _ r).
  rewrite (eval_query_step q r Hq). tauto.
Qed.

(** C5, as stated, fails: LIKE folds the case of ASCII letters, so the
    domain filter "x.com" keeps a row whose email ends with "@X.COM" and not
    with "@x.com". *)
Lemma search_patients_domain_filter_folds_case :
  search_patients upper_case_domain "" (Some "All") (Some "x.com")
  = rows upper_case_domain /\
  map Row.email (rows upper_case_domain) = ["a@X.COM"] /\
  ~ ends_with "@x.com" "a@X.COM".
Proof.
  split; [reflexivity|]. split; [reflexivity|].
  intros [pre H]. simpl in H.
  destruct pre as [|c0 [|c1 pre]]; simpl in H; try discriminate.
  apply (f_equal (@List.length ascii)) in H. simpl in H.
  rewrite length_app in H. simpl in H. lia.
Qed.

(** Unescaped, the characters [_] and [%] of a query are LIKE wildcards:
    the query "_" keeps every row though no field holds an underscore. *)
Remark search_patients_underscore_is_a_wildcard :
  search_patients three_patients "_" None None = [jones_c; smith_b; smith_a].
Proof. reflexivity. Qed.

Lemma select_where_In tb c r :
  In r (select_where tb c) <-> In r (rows tb) /\ holds (eval c r) = true.
Proof.
  unfold select_where. rewrite order_by_id_desc_In. apply filter_In.
Qed.

(** C5 (amended): for a query and a domain filter without the LIKE
    wildcards [%] and [_] and without NUL character, whose patterns are
    within the length limit of LIKE, [search_patients] returns exactly the
    stored rows that pass every active filter, newest first by id.  A filter
    is active when its argument is a string other than "" and "All".  The
    query keeps a row when it occurs, up to the case of ASCII letters, in
    first_name, last_name, email or a non-NULL phone, each read up to its
    first NUL character if it has one; the last-name filter keeps the rows
    whose last_name equals it; the domain filter keeps the rows whose email,
    read up to its first NUL, ends, up to the case of ASCII letters, with
    "@" followed by it.  On the three sample rows, last name "Smith" with
    domain "x.com" gives exactly the first. *)
Theorem search_patients_filters :
  forall tb query last_name_filter email_domain_filter,
    plain query ->
    (forall v, email_domain_filter = Some v -> plain v) ->
    patterns_fit query email_domain_filter ->
    let found := search_patients tb query last_name_filter email_domain_filter in
    (forall r, In r found <->
               In r (rows tb) /\ keeps query last_name_filter email_domain_filter r) /\
    (NoDup (rows tb) -> NoDup found) /\
    StronglySorted newer_or_same found /\
    search_patients three_patients "" (Some "Smith") (Some "x.com") = [smith_a].
Proof.
  intros tb q l d Hq Hd _ found. subst found. unfold search_patients.
  split; [|split; [|split]].
  - intros r. rewrite select_where_In.
    now rewrite (search_where_keeps q l d r Hq Hd).
  - intros Hn. unfold select_where.
    eapply Permutation_NoDup.
    + symmetry. apply order_by_id_desc_perm.
    + now apply NoDup_filter.
  - apply order_by_id_desc_sorted.
  - reflexivity.
Qed.

Lemma plain_x_com : plain "x.com".
Proof.
  unfold plain, literal. simpl. split; [repeat constructor; discriminate|].
  intros H. repeat (destruct H as [H|H]; [discriminate H|]). exact H.
Qed.

Lemma search_patients_filters_witness :
  In smith_a (search_patients three_patients "Smi" (Some "Smith") (Some "x.com")).
Proof.
  assert (plain "Smi") as Hq.
  { unfold plain, literal. simpl. split; [repeat constructor; discriminate|].
    intros H. repeat (destruct H as [H|H]; [discriminate H|]). exact H. }
  assert (forall v, Some "x.com" = Some v -> plain v) as Hd.
  { intros v H. injection H as <-. exact plain_x_com. }
  assert (patterns_fit "Smi" (Some "x.com")) as Hf.
  { split; [reflexivity|]. intros v H. injection H as <-. reflexivity. }
  apply (proj1 (search_patients_filters three_patients "Smi" (Some "Smith")
                  (Some "x.com") Hq Hd Hf)).
  split; [simpl; tauto|]. split; [|split].
  - intros _. right. left. exists [], (Py.chars "Smi"), (Py.chars "th").
    split; reflexivity.
  - intros v (H & _). now injection H as <-.
  - intros v (H & _). injection H as <-.
    exists ["a"%char], (Py.chars "@x.com"). split; reflexivity.
Defined.

(** C10: with an empty query and both filters at "All" (or left at their
    default [None]), [search_patients] returns the very list that
    [get_all_patients] returns: all rows, newest first by id. *)
Theorem search_patients_without_filters :
  forall tb,
    search_patients tb "" (Some "All") (Some "All") = get_all_patients tb /\
    search_patients tb "" None None = get_all_patients tb /\
    search_patients tb "" (Some "All") None = get_all_patients tb /\
    search_patients tb "" None (Some "All") = get_all_patients tb /\
    Permutation (get_all_patients tb) (rows tb) /\
    StronglySorted newer_or_same (get_all_patients tb).
Proof.
  intros tb. unfold search_patients, get_all_patients, select_where.
  repeat split; try (simpl; now rewrite filter_all).
  - apply order_by_id_desc_perm.
  - apply order_by_id_desc_sorted.
Qed.

(* ------------------------------------------------------------------ *)
(** ** The order of strings and [sorted] *)

Lemma ascii_compare_refl a : Ascii.compare a a = Eq.
Proof. unfold Ascii.compare. apply N.compare_refl. Qed.

Lemma ascii_compare_lt_trans a b c :
  Ascii.compare a b = Lt -> Ascii.compare b c = Lt -> Ascii.compare a c = Lt.
Proof.
  unfold Ascii.compare. rewrite !N.compare_lt_iff. apply N.lt_trans.
Qed.

Lemma string_compare_refl s : String.compare s s = Eq.
Proof.
  induction s as [|a s IH]; simpl; [reflexivity|].
  now rewrite ascii_compare_refl.
Qed.

Lemma string_compare_lt_trans s1 : forall s2 s3,
  String.compare s1 s2 = Lt -> String.compare s2 s3 = Lt ->
  String.compare s1 s3 = Lt.
Proof.
  induction s1 as [|a s1 IH]; intros [|b s2] [|c s3]; simpl; try congruence.
  destruct (Ascii.compare a b) eqn:Eab; try discriminate;
    destruct (Ascii.compare b c) eqn:Ebc; try discriminate; intros H1 H2.
  - apply Ascii.compare_eq_iff in Eab, Ebc. subst.
    rewrite ascii_compare_refl. now apply IH with s2.
  - apply Ascii.compare_eq_iff in Eab. subst. now rewrite Ebc.
  - apply Ascii.compare_eq_iff in Ebc. subst. now rewrite Eab.
  - now rewrite (ascii_compare_lt_trans _ _ _ Eab Ebc).
Qed.

Lemma str_le_cases a b : str_le a b <-> String.compare a b = Lt \/ a = b.
Proof.
  unfold str_le, String.leb. split.
  - destruct (String.compare a b) eqn:E; try discriminate; intros _.
    + right. now apply String.compare_eq_iff.
    + now left.
  - intros [->| ->]; [reflexivity|]. now rewrite string_compare_refl.
Qed.

Lemma str_lt_cases a b : str_lt a b <-> String.compare a b = Lt.
Proof.
  unfold str_lt, String.ltb. destruct (String.compare a b); split; congruence.
Qed.

Lemma str_le_trans a b c : str_le a b -> str_le b c -> str_le a c.
Proof.
  rewrite !str_le_cases. intros [H1| ->] [H2| ->]; auto.
  left. now apply string_compare_lt_trans with b.
Qed.

Lemma str_le_total a b : str_le a b \/ str_le b a.
Proof. apply String.leb_total. Qed.

Lemma str_le_neq_lt a b : str_le a b -> a <> b -> str_lt a b.
Proof.
  rewrite str_le_cases, str_lt_cases. intros [H|H] Hn; [exact H | contradiction].
Qed.

Lemma insert_sorted_perm x l : Permutation (Py.insert_sorted x l) (x :: l).
Proof.
  induction l as [|y l IH]; simpl; [reflexivity|].
  destruct (x <=? y)%string; [reflexivity|].
  rewrite IH. apply perm_swap.
Qed.

Lemma sorted_perm l : Permutation (Py.sorted l) l.
Proof.
  induction l as [|x l IH]; simpl; [reflexivity|].
  rewrite insert_sorted_perm. now constructor.
Qed.

Lemma insert_sorted_ascending x l :
  StronglySorted str_le l -> StronglySorted str_le (Py.insert_sorted x l).
Proof.
  induction 1 as [|y l Hs IH Hy]; simpl.
  - repeat constructor.
  - destruct (x <=? y)%string eqn:E.
    + constructor; [now constructor|].
      constructor; [exact E|].
      eapply Forall_impl; [|exact Hy]. intros z Hz. now apply str_le_trans with y.
    + constructor; [exact IH|].
      rewrite Forall_forall. intros z Hz.
      apply (Permutation_in _ (insert_sorted_perm x l)) in Hz.
      destruct Hz as [<-|Hz].
      * destruct (str_le_total x y) as [H|H]; [unfold str_le in H; congruence | exact H].
      * rewrite Forall_forall in Hy. now apply Hy.
Qed.

Lemma sorted_ascending l : StronglySorted str_le (Py.sorted l).
Proof.
  induction l as [|x l IH]; simpl; [constructor|]. now apply insert_sorted_ascending.
Qed.

Lemma ascending_nodup_strict l :
  StronglySorted str_le l -> NoDup l -> StronglySorted str_lt l.
Proof.
  induction 1 as [|x l Hs IH Hx]; intros Hn; [constructor|].
  inversion Hn as [|? ? Hnotin Hn']; subst.
  constructor; [now apply IH|].
  rewrite Forall_forall in *. intros y Hy.
  apply str_le_neq_lt; [now apply Hx|]. intros ->. contradiction.
Qed.

Lemma sorted_strict l : NoDup l -> StronglySorted str_lt (Py.sorted l).
Proof.
  intros Hn. apply ascending_nodup_strict; [apply sorted_ascending|].
  eapply Permutation_NoDup; [symmetry; apply sorted_perm | exact Hn].
Qed.

(* ------------------------------------------------------------------ *)
(** ** get_all_email_domains *)

Lemma chars_str l : Py.chars (Py.str l) = l.
Proof. apply list_ascii_of_string_of_list_ascii. Qed.

Lemma str_chars s : Py.str (Py.chars s) = s.
Proof. apply string_of_list_ascii_of_string. Qed.

Lemma split_chars_no_sep sep h :
  ~ In sep h -> Py.split_chars sep h = [h].
Proof.
  induction h as [|c h IH]; simpl; intros Hn; [reflexivity|].
  destruct (Ascii.eqb_spec c sep) as [->|Hc]; [tauto|].
  rewrite IH; tauto.
Qed.

Lemma split_chars_at_sep sep h r :
  ~ In sep h -> Py.split_chars sep (h ++ sep :: r) = h :: Py.split_chars sep r.
Proof.
  induction h as [|c h IH]; simpl; intros Hn.
  - now rewrite Ascii.eqb_refl.
  - destruct (Ascii.eqb_spec c sep) as [->|Hc]; [tauto|].
    rewrite IH; tauto.
Qed.

Lemma first_occurrence (c : ascii) s :
  In c s -> exists h r, s = h ++ c :: r /\ ~ In c h.
Proof.
  induction s as [|x s IH]; simpl; [tauto|].
  destruct (ascii_dec x c) as [->|Hx].
  - intros _. now exists [], s.
  - intros [H|H]; [contradiction|].
    destruct (IH H) as (h & r & -> & Hn). exists (x :: h), r.
    split; [reflexivity|]. simpl. tauto.
Qed.

Lemma up_to_next (c : ascii) s :
  exists h rest, s = h ++ rest /\ ~ In c h /\
                 (rest = [] \/ exists rest', rest = c :: rest').
Proof.
  destruct (in_dec ascii_dec c s) as [H|H].
  - destruct (first_occurrence c s H) as (h & r & -> & Hn).
    exists h, (c :: r). repeat split; [exact Hn|]. right. now exists r.
  - exists s, []. rewrite app_nil_r. tauto.
Qed.

Lemma split_chars_second sep h rest :
  ~ In sep h -> (rest = [] \/ exists rest', rest = sep :: rest') ->
  exists t, Py.split_chars sep (h ++ rest) = h :: t.
Proof.
  intros Hn [->|[rest' ->]].
  - rewrite app_nil_r, split_chars_no_sep by exact Hn. now exists [].
  - rewrite split_chars_at_sep by exact Hn. eexists. reflexivity.
Qed.

Lemma domain_of_parts local d rest :
  ~ In "@"%char local -> ~ In "@"%char d ->
  (rest = [] \/ exists rest', rest = "@"%char :: rest') ->
  domain (Py.str (local ++ "@"%char :: d ++ rest)) = Py.str d.
Proof.
  intros Hl Hd Hr. unfold domain, Py.split. rewrite chars_str.
  rewrite split_chars_at_sep by exact Hl.
  destruct (split_chars_second "@" d rest Hd Hr) as [t ->]. reflexivity.
Qed.

Lemma contains_at e : Py.contains "@" e = true <-> In "@"%char (Py.chars e).
Proof.
  unfold Py.contains. change (Py.chars "@") with ["@"%char].
  induction (Py.chars e) as [|c s IH]; cbn [Py.occurs_in Py.starts_with In].
  - split; [discriminate | tauto].
  - rewrite andb_true_r, orb_true_iff, IH, Ascii.eqb_eq. split.
    + intros [->|H]; tauto.
    + intros [->|H]; tauto.
Qed.

Lemma domain_follows_at e :
  In "@"%char (Py.chars e) -> follows_at e (domain e).
Proof.
  intros H. destruct (first_occurrence _ _ H) as (local & r & Heq & Hl).
  destruct (up_to_next "@" r) as (d & rest & -> & Hd & Hr).
  assert (domain e = Py.str d) as ->.
  { rewrite <- (str_chars e), Heq. now apply domain_of_parts. }
  exists local, rest. rewrite chars_str. tauto.
Qed.

Lemma follows_at_domain e d :
  follows_at e d -> In "@"%char (Py.chars e) /\ d = domain e.
Proof.
  intros (local & rest & Heq & Hl & Hd & Hr). split.
  - rewrite Heq. apply in_or_app. right. now left.
  - rewrite <- (str_chars e), Heq.
    rewrite (domain_of_parts local (Py.chars d) rest Hl Hd Hr).
    now rewrite str_chars.
Qed.

Lemma collect_In emails : forall acc d,
  In d (fold_left collect emails acc) <->
  In d acc \/ exists e, In e emails /\ In "@"%char (Py.chars e) /\ d = domain e.
Proof.
  induction emails as [|e emails IH]; cbn [fold_left In]; intros acc d.
  - split; [tauto|]. intros [H|(e & [] & _)]. exact H.
  - rewrite IH. unfold collect. fold (domain e).
    destruct (Py.contains "@" e) eqn:E.
    + apply contains_at in E. unfold Py.set_add. rewrite set_add_iff. split.
      * intros [[->|H]|(e' & He' & H)]; [right; exists e; tauto | tauto |].
        right. exists e'. tauto.
      * intros [H|(e' & [<-|He'] & Hat & ->)]; [tauto | tauto |].
        right. exists e'. tauto.
    + split.
      * intros [H|(e' & He' & H)]; [tauto|]. right. exists e'. tauto.
      * intros [H|(e' & [<-|He'] & Hat & ->)]; [tauto | |].
        -- apply contains_at in Hat. congruence.
        -- right. exists e'. tauto.
Qed.

Lemma collect_NoDup emails : forall acc,
  NoDup acc -> NoDup (fold_left collect emails acc).
Proof.
  induction emails as [|e emails IH]; cbn [fold_left]; intros acc H; [exact H|].
  apply IH. unfold collect. destruct (Py.contains "@" e); [|exact H].
  now apply set_add_nodup.
Qed.

(** C9, as stated, fails: for the stored email "x@y@z" the result is
    ["y"].  The substrings of that email that follow an "@" are "y@z" and
    "z"; "y" is not one of them, and neither of them is in the result. *)
Lemma get_all_email_domains_stops_at_second_at :
  map Row.email (rows two_at_signs) = ["x@y@z"] /\
  get_all_email_domains two_at_signs = ["y"] /\
  ~ after_at "x@y@z" "y" /\
  after_at "x@y@z" "y@z" /\ after_at "x@y@z" "z".
Proof.
  split; [reflexivity|]. split; [reflexivity|]. split; [|split].
  - intros [local H]. cbn in H.
    repeat (destruct local as [|? local]; cbn in H; try discriminate H).
  - exists ["x"%char]. reflexivity.
  - exists (Py.chars "x@y"). reflexivity.
Qed.

(** C9 (amended): [get_all_email_domains] returns a list in strictly
    ascending string order, hence sorted and without duplicates, whose
    members are exactly the texts that stand between the first "@" of a
    stored email and its next "@", or its end when it has no second "@";
    every stored email that has an "@" contributes that text.  For a stored
    email with exactly one "@" the text is the whole substring that follows
    the "@". *)
Theorem get_all_email_domains_sorted_distinct :
  forall tb,
    StronglySorted str_lt (get_all_email_domains tb) /\
    NoDup (get_all_email_domains tb) /\
    (forall d, In d (get_all_email_domains tb) <->
               exists r, In r (rows tb) /\ follows_at (Row.email r) d) /\
    (forall r, In r (rows tb) -> In "@"%char (Py.chars (Row.email r)) ->
               In (domain (Row.email r)) (get_all_email_domains tb)) /\
    (forall r local rest,
        In r (rows tb) ->
        Py.chars (Row.email r) = local ++ "@"%char :: rest ->
        ~ In "@"%char local -> ~ In "@"%char rest ->
        domain (Row.email r) = Py.str rest /\
        after_at (Row.email r) (Py.str rest) /\
        In (Py.str rest) (get_all_email_domains tb)).
Proof.
  intros tb. unfold get_all_email_domains. cbv zeta.
  change (fun domains email =>
            if Py.contains "@" email
            then Py.set_add (nth 1 (Py.split "@" email) "") domains
            else domains) with collect.
  assert (NoDup (fold_left collect (select_distinct_email tb) [])) as Hn.
  { apply collect_NoDup. constructor. }
  assert (forall d, In d (Py.sorted (fold_left collect (select_distinct_email tb) []))
                    <-> exists r, In r (rows tb) /\ In "@"%char (Py.chars (Row.email r))
                                  /\ d = domain (Row.email r)) as Hmem.
  { intros d. split.
    - intros H. apply (Permutation_in _ (sorted_perm _)) in H.
      apply collect_In in H. destruct H as [[]|(e & He & Hat & ->)].
      unfold select_distinct_email in He. apply nodup_In in He.
      apply in_map_iff in He. destruct He as (r & <- & Hr). now exists r.
    - intros (r & Hr & Hat & ->).
      apply (Permutation_in _ (Permutation_sym (sorted_perm _))).
      apply collect_In. right. exists (Row.email r). repeat split; [|exact Hat].
      unfold select_distinct_email. apply nodup_In. now apply in_map. }
  split; [now apply sorted_strict|].
  split; [eapply Permutation_NoDup; [symmetry; apply sorted_perm | exact Hn]|].
  split; [|split].
  - intros d. rewrite Hmem. split.
    + intros (r & Hr & Hat & ->). exists r. split; [exact Hr|].
      now apply domain_follows_at.
    + intros (r & Hr & Hf). apply follows_at_domain in Hf. exists r. tauto.
  - intros r Hr Hat. apply Hmem. now exists r.
  - intros r local rest Hr Heq Hl Hrest.
    assert (domain (Row.email r) = Py.str rest) as Hd.
    { rewrite <- (str_chars (Row.email r)), Heq.
      rewrite <- (app_nil_r rest) at 1.
      apply domain_of_parts; [exact Hl | exact Hrest | now left]. }
    split; [exact Hd|]. split.
    + exists local. now rewrite chars_str.
    + apply Hmem. exists r. split; [exact Hr|]. split; [|now rewrite Hd].
      rewrite Heq. apply in_or_app. right. now left.
Qed.

Lemma get_all_email_domains_sorted_distinct_witness :
  domain "c@x.com" = "x.com" /\
  after_at "c@x.com" "x.com" /\
  In "x.com" (get_all_email_domains three_patients).
Proof.
  destruct (get_all_email_domains_sorted_distinct three_patients)
    as (_ & _ & _ & _ & H).
  apply (H jones_c ["c"%char] (Py.chars "x.com")).
  - simpl. tauto.
  - reflexivity.
  - intros [H1|[]]. discriminate H1.
  - intros Hin. cbn in Hin.
    repeat (destruct Hin as [Hin|Hin]; [discriminate Hin|]). exact Hin.
Defined.

(* ------------------------------------------------------------------ *)
(** ** What a regular expression matches *)

Lemma matches_void s : ~ matches Void s.
Proof. intros H. inversion H. Qed.

Lemma matches_eps s : matches Eps s <-> s = [].
Proof. split; [intros H; now inversion H | intros ->; constructor]. Qed.

Lemma matches_cls p s : matches (Cls p) s <-> exists c, s = [c] /\ p c = true.
Proof.
  split.
  - intros H. inversion H; subst. eauto.
  - intros (c & -> & H). now constructor.
Qed.

Lemma matches_cat r1 r2 s :
  matches (Cat r1 r2) s <->
  exists s1 s2, s = s1 ++ s2 /\ matches r1 s1 /\ matches r2 s2.
Proof.
  split.
  - intros H. inversion H; subst. eauto.
  - intros (s1 & s2 & -> & H1 & H2). now constructor.
Qed.

Lemma matches_alt r1 r2 s : matches (Alt r1 r2) s <-> matches r1 s \/ matches r2 s.
Proof.
  split.
  - intros H. inversion H; subst; tauto.
  - intros [H|H]; [now apply MAltL | now apply MAltR].
Qed.

Lemma nullable_matches r : nullable r = true <-> matches r [].
Proof.
  induction r as [| |p|r1 IH1 r2 IH2|r1 IH1 r2 IH2|r IH]; simpl.
  - split; [discriminate | intros H; inversion H].
  - split; [constructor | reflexivity].
  - split; [discriminate | intros H; inversion H].
  - rewrite andb_true_iff, IH1, IH2, matches_cat. split.
    + intros [H1 H2]. now exists [], [].
    + intros (s1 & s2 & Heq & H1 & H2). symmetry in Heq.
      apply app_eq_nil in Heq. destruct Heq as [-> ->]. tauto.
  - rewrite orb_true_iff, IH1, IH2, matches_alt. tauto.
  - split; [constructor | reflexivity].
Qed.

(** A non-empty match of [r*] starts with a non-empty match of [r]. *)
Lemma matches_star_cons r c s :
  matches (Star r) (c :: s) ->
  exists s1 s2, s = s1 ++ s2 /\ matches r (c :: s1) /\ matches (Star r) s2.
Proof.
  intros H. remember (Star r) as r' eqn:Er. remember (c :: s) as cs eqn:Es.
  revert s Es. induction H as [| | | | | |r0 s1 s2 H1 _ H2 IH2]; try discriminate.
  injection Er as ->. intros s Es. destruct s1 as [|x s1]; simpl in Es.
  - now apply IH2.
  - injection Es as -> <-. now exists s1, s2.
Qed.

Lemma deriv_matches c r : forall s, matches (deriv c r) s <-> matches r (c :: s).
Proof.
  induction r as [| |p|r1 IH1 r2 IH2|r1 IH1 r2 IH2|r IH]; intros s; simpl.
  - split; intros H; inversion H.
  - split; intros H; inversion H.
  - rewrite matches_cls. destruct (p c) eqn:E.
    + rewrite matches_eps. split.
      * intros ->. now exists c.
      * intros (x & Heq & _). now injection Heq.
    + split; [intros H; inversion H|].
      intros (x & Heq & Hx). injection Heq as -> _. congruence.
  - assert (matches (Cat (deriv c r1) r2) s <->
            exists s1 s2, s = s1 ++ s2 /\ matches r1 (c :: s1) /\ matches r2 s2) as Hc.
    { rewrite matches_cat. split; intros (s1 & s2 & Heq & H1 & H2);
        exists s1, s2; (split; [exact Heq|]); (split; [now apply IH1 | exact H2]). }
    rewrite (matches_cat r1 r2). destruct (nullable r1) eqn:E.
    + rewrite matches_alt, Hc, IH2. split.
      * intros [(s1 & s2 & -> & H1 & H2)|H].
        -- now exists (c :: s1), s2.
        -- exists [], (c :: s). repeat split; [|exact H]. now apply nullable_matches.
      * intros (s1 & s2 & Heq & H1 & H2). destruct s1 as [|x s1]; simpl in Heq.
        -- right. now subst s2.
        -- left. injection Heq as <- ->. now exists s1, s2.
    + rewrite Hc. split.
      * intros (s1 & s2 & -> & H1 & H2). now exists (c :: s1), s2.
      * intros (s1 & s2 & Heq & H1 & H2). destruct s1 as [|x s1]; simpl in Heq.
        -- apply nullable_matches in H1. congruence.
        -- injection Heq as <- ->. now exists s1, s2.
  - rewrite !matches_alt, IH1, IH2. tauto.
  - rewrite matches_cat. split.
    + intros (s1 & s2 & -> & H1 & H2). apply IH in H1.
      now apply (MStarApp r (c :: s1) s2).
    + intros H. apply matches_star_cons in H.
      destruct H as (s1 & s2 & -> & H1 & H2). exists s1, s2.
      repeat split; [now apply IH | exact H2].
Qed.

(** The derivative matcher decides the language of the expression. *)
Lemma full_match_matches s : forall r, full_match r s = true <-> matches r s.
Proof.
  induction s as [|c s IH]; intros r; simpl.
  - apply nullable_matches.
  - rewrite IH. apply deriv_matches.
Qed.

(** ** Runs of one character class *)

Lemma matches_chr c s : matches (Chr c) s <-> s = [c].
Proof.
  unfold Chr. rewrite matches_cls. split.
  - intros (x & -> & H). apply Ascii.eqb_eq in H. now subst.
  - intros ->. exists c. split; [reflexivity | apply Ascii.eqb_refl].
Qed.

Lemma matches_opt_chr c s : matches (Opt (Chr c)) s <-> s = [] \/ s = [c].
Proof. unfold Opt. rewrite matches_alt, matches_chr, matches_eps. tauto. Qed.

Section Runs.

Variable p : ascii -> bool.

Lemma matches_star_cls s : matches (Star (Cls p)) s <-> all_in p s.
Proof.
  unfold all_in. split.
  - intros H. remember (Star (Cls p)) as r eqn:Er.
    induction H as [| | | | | |r0 s1 s2 H1 _ H2 IH2]; try discriminate.
    + constructor.
    + injection Er as ->. apply matches_cls in H1. destruct H1 as (c & -> & Hc).
      simpl. constructor; [exact Hc | now apply IH2].
  - induction 1 as [|c s Hc _ IH]; [constructor|].
    apply (MStarApp (Cls p) [c] s); [now constructor | exact IH].
Qed.

Lemma matches_times_cls n : forall s,
  matches (Times n (Cls p)) s <-> List.length s = n /\ all_in p s.
Proof.
  unfold all_in. induction n as [|n IH]; intros s; simpl.
  - rewrite matches_eps. split.
    + intros ->. split; [reflexivity | constructor].
    + intros [H _]. now apply length_zero_iff_nil.
  - rewrite matches_cat. split.
    + intros (s1 & s2 & -> & H1 & H2). apply matches_cls in H1.
      destruct H1 as (c & -> & Hc). apply IH in H2. destruct H2 as [Hl Ha].
      simpl. split; [now rewrite Hl | now constructor].
    + intros [Hl Ha]. destruct s as [|c s]; [discriminate|].
      inversion Ha; subst. exists [c], s. repeat split.
      * now constructor.
      * apply IH. split; [now injection Hl | assumption].
Qed.

Lemma matches_upto_cls k : forall s,
  matches (UpTo k (Cls p)) s <-> List.length s <= k /\ all_in p s.
Proof.
  unfold all_in. induction k as [|k IH]; intros s; simpl.
  - rewrite matches_eps. split.
    + intros ->. split; [reflexivity | constructor].
    + intros [H _]. apply length_zero_iff_nil. lia.
  - unfold Opt. rewrite matches_alt, matches_eps, matches_cat. split.
    + intros [(s1 & s2 & -> & H1 & H2)| ->].
      * apply matches_cls in H1. destruct H1 as (c & -> & Hc).
        apply IH in H2. destruct H2 as [Hl Ha].
        simpl. split; [lia | now constructor].
      * simpl. split; [lia | constructor].
    + intros [Hl Ha]. destruct s as [|c s]; [now right|]. left.
      inversion Ha; subst. exists [c], s. repeat split.
      * now constructor.
      * apply IH. simpl in Hl. split; [lia | assumption].
Qed.

Lemma matches_plus_cls s :
  matches (Plus (Cls p)) s <-> s <> [] /\ all_in p s.
Proof.
  unfold Plus, all_in. rewrite matches_cat. split.
  - intros (s1 & s2 & -> & H1 & H2). apply matches_cls in H1.
    destruct H1 as (c & -> & Hc). apply matches_star_cls in H2.
    simpl. split; [discriminate | now constructor].
  - intros [Hn Ha]. destruct s as [|c s]; [contradiction|].
    inversion Ha; subst. exists [c], s. repeat split.
    + now constructor.
    + now apply matches_star_cls.
Qed.

Lemma matches_atleast_cls n s :
  matches (AtLeast n (Cls p)) s <-> n <= List.length s /\ all_in p s.
Proof.
  unfold AtLeast, all_in. rewrite matches_cat. split.
  - intros (s1 & s2 & -> & H1 & H2).
    apply matches_times_cls in H1. apply matches_star_cls in H2.
    destruct H1 as [Hl H1]. rewrite length_app. split; [lia|].
    apply Forall_app. now split.
  - intros [Hl Ha]. exists (firstn n s), (skipn n s).
    rewrite firstn_skipn. rewrite <- (firstn_skipn n s) in Ha.
    apply Forall_app in Ha. destruct Ha as [Ha1 Ha2]. repeat split.
    + apply matches_times_cls. split; [|exact Ha1].
      rewrite length_firstn. lia.
    + now apply matches_star_cls.
Qed.

Lemma matches_between_cls m n s :
  m <= n ->
  matches (Between m n (Cls p)) s <-> m <= List.length s <= n /\ all_in p s.
Proof.
  intros Hmn. unfold Between, all_in. rewrite matches_cat. split.
  - intros (s1 & s2 & -> & H1 & H2).
    apply matches_times_cls in H1. apply matches_upto_cls in H2.
    destruct H1 as [Hl1 H1], H2 as [Hl2 H2]. rewrite length_app.
    split; [lia|]. apply Forall_app. now split.
  - intros [Hl Ha]. exists (firstn m s), (skipn m s).
    rewrite firstn_skipn. rewrite <- (firstn_skipn m s) in Ha.
    apply Forall_app in Ha. destruct Ha as [Ha1 Ha2]. repeat split.
    + apply matches_times_cls. split; [|exact Ha1].
      rewrite length_firstn. lia.
    + apply matches_upto_cls. split; [|exact Ha2].
      rewrite length_skipn. lia.
Qed.

End Runs.

(** ** The shapes the two validators are meant to accept *)

Lemma digit_decimal c :
  digit c = true <-> In c (Py.chars "0123456789").
Proof.
  assert (digit c = existsb (fun x => (x =? c)%char) (Py.chars "0123456789")) as ->
    by (destruct c as [[] [] [] [] [] [] [] []]; reflexivity).
  rewrite existsb_exists. split.
  - intros (x & Hx & Heq). apply Ascii.eqb_eq in Heq. now subst.
  - intros H. exists c. split; [exact H | apply Ascii.eqb_refl].
Qed.

Lemma phone_pattern_shape s : matches phone_pattern s <-> phone_shape s.
Proof.
  unfold phone_pattern, phone_shape. rewrite matches_cat. split.
  - intros (s1 & s2 & -> & H1 & H2). apply matches_opt_chr in H1.
    apply matches_between_cls in H2; [|lia]. exists s1, s2. tauto.
  - intros (s1 & s2 & -> & H1 & H2). exists s1, s2. repeat split.
    + now apply matches_opt_chr.
    + apply matches_between_cls; [lia | exact H2].
Qed.

Lemma email_pattern_shape s : matches email_pattern s <-> email_shape s.
Proof.
  unfold email_pattern, email_shape. split.
  - intros H.
    apply matches_cat in H. destruct H as (local & s1 & -> & Hl & H).
    apply matches_cat in H. destruct H as (a & s2 & -> & Ha & H).
    apply matches_cat in H. destruct H as (dom & s3 & -> & Hd & H).
    apply matches_cat in H. destruct H as (dot & tld & -> & Hdot & Ht).
    apply matches_plus_cls in Hl. apply matches_chr in Ha.
    apply matches_plus_cls in Hd. apply matches_chr in Hdot.
    apply matches_atleast_cls in Ht. subst a dot.
    exists local, dom, tld. simpl. tauto.
  - intros (local & dom & tld & -> & Hl1 & Hl2 & Hd1 & Hd2 & Ht1 & Ht2).
    apply (MCat _ _ local); [now apply matches_plus_cls|].
    apply (MCat _ _ ["@"%char]); [now apply matches_chr|].
    apply (MCat _ _ dom); [now apply matches_plus_cls|].
    apply (MCat _ _ ["."%char]); [now apply matches_chr|].
    now apply matches_atleast_cls.
Qed.

(** [$] lets one newline through at the end of the string. *)
Lemma match_anchored_matches r s :
  match_anchored r s = true <->
  matches r (Py.chars s) \/
  exists before, Py.chars s = before ++ [newline] /\ matches r before.
Proof.
  unfold match_anchored. cbv zeta.
  rewrite orb_true_iff, full_match_matches.
  assert (match rev (Py.chars s) with
          | [] => false
          | c :: before => (c =? newline)%char && full_match r (rev before)
          end = true <->
          exists before, Py.chars s = before ++ [newline] /\ matches r before) as H.
  { destruct (rev (Py.chars s)) as [|c b] eqn:E.
    - split; [discriminate|]. intros (before & Heq & _).
      rewrite Heq, rev_app_distr in E. discriminate.
    - apply (f_equal (@rev ascii)) in E. rewrite rev_involutive in E. simpl in E.
      rewrite andb_true_iff, Ascii.eqb_eq, full_match_matches. split.
      + intros [-> Hm]. now exists (rev b).
      + intros (before & Heq & Hm). rewrite E in Heq.
        apply app_inj_tail in Heq. destruct Heq as [-> ->]. tauto. }
  rewrite H. tauto.
Qed.

(** What [is_valid_phone] accepts among the strings of the embedding: the
    phone shape, and the phone shape followed by one newline. *)
Lemma is_valid_phone_accepts s :
  is_valid_phone s = true <->
  phone_shape (Py.chars s) \/
  exists before, Py.chars s = before ++ [newline] /\ phone_shape before.
Proof.
  unfold is_valid_phone. rewrite match_anchored_matches, phone_pattern_shape.
  split; (intros [H|(b & Heq & H)]; [now left | right; exists b]);
    (split; [exact Heq | now apply phone_pattern_shape]).
Qed.

(** What [is_valid_email] accepts: the email shape, and the email shape
    followed by one newline. *)
Lemma is_valid_email_accepts s :
  is_valid_email s = true <->
  email_shape (Py.chars s) \/
  exists before, Py.chars s = before ++ [newline] /\ email_shape before.
Proof.
  unfold is_valid_email. rewrite match_anchored_matches, email_pattern_shape.
  split; (intros [H|(b & Heq & H)]; [now left | right; exists b]);
    (split; [exact Heq | now apply email_pattern_shape]).
Qed.

(** Every string of the phone shape is accepted. *)
Lemma is_valid_phone_complete s :
  phone_shape (Py.chars s) -> is_valid_phone s = true.
Proof. intros H. apply is_valid_phone_accepts. now left. Qed.

(** Every string of the email shape is accepted. *)
Lemma is_valid_email_complete s :
  email_shape (Py.chars s) -> is_valid_email s = true.
Proof. intros H. apply is_valid_email_accepts. now left. Qed.

(** A string without "@" is rejected. *)
Lemma is_valid_email_needs_at s :
  ~ In "@"%char (Py.chars s) -> is_valid_email s = false.
Proof.
  intros Hn. apply not_true_is_false. intros H.
  apply is_valid_email_accepts in H. apply Hn.
  assert (forall local rest, In "@"%char (local ++ "@"%char :: rest)) as Hat.
  { intros local rest. apply in_or_app. right. now left. }
  destruct H as [H|(b & -> & H)];
    destruct H as (local & dom & tld & -> & _).
  - apply Hat.
  - apply in_or_app. left. apply Hat.
Qed.

(** A string that does not end in a newline is accepted only in the shape. *)
Lemma is_valid_email_sound s :
  (forall before, Py.chars s <> before ++ [newline]) ->
  is_valid_email s = true -> email_shape (Py.chars s).
Proof.
  intros Hn H. apply is_valid_email_accepts in H.
  destruct H as [H|(b & Heq & _)]; [exact H | now apply Hn in Heq].
Qed.

(** C6: [is_valid_phone] accepts ten digits followed by a newline, a string
    that is not an optional "+" followed by 10 to 15 digits and nothing
    else: the [$] of the pattern also matches before a final newline. *)
Theorem is_valid_phone_accepts_trailing_newline :
  is_valid_phone phone_with_newline = true /\
  ~ phone_shape (Py.chars phone_with_newline).
Proof.
  split; [reflexivity|]. intros H.
  apply phone_pattern_shape, full_match_matches in H. discriminate H.
Qed.

(** C7: [is_valid_email] accepts "a@b.co" followed by a newline, a string
    that is not of the shape local-part@domain.tld with nothing else: the
    [$] of the pattern also matches before a final newline. *)
Theorem is_valid_email_accepts_trailing_newline :
  is_valid_email email_with_newline = true /\
  ~ email_shape (Py.chars email_with_newline).
Proof.
  split; [reflexivity|]. intros H.
  apply email_pattern_shape, full_match_matches in H. discriminate H.
Qed.

(* ================================================================== *)
(** * Further properties of the record store *)

(** ** delete_patient *)

Lemma find_after_delete i j l :
  find (has_id j) (filter (fun r => negb (has_id i r)) l) =
  if (j =? i)%Z then None else find (has_id j) l.
Proof.
  destruct (Z.eqb_spec j i) as [->|Hji].
  - apply find_absent. intros r Hr. apply filter_In in Hr.
    destruct Hr as [_ Hr]. now apply negb_true_iff in Hr.
  - induction l as [|a l IH]; [reflexivity|]. cbn [filter find].
    destruct (has_id i a) eqn:Ei; cbn [negb].
    + unfold has_id in Ei. apply Z.eqb_eq in Ei.
      rewrite (has_id_false j a) by lia. exact IH.
    + cbn [find]. destruct (has_id j a); [reflexivity | exact IH].
Qed.

(** X1: [delete_patient] removes the row with the given id and nothing
    else: afterwards [get_patient_by_id] finds no row under that id, finds
    under every other id what it found before, the remaining rows are the
    old rows with another id, and the AUTOINCREMENT counter is untouched. *)
Theorem delete_patient_removes_only_that_row :
  forall tb i,
    get_patient_by_id (delete_patient tb i) i = None /\
    (forall j, j <> i ->
       get_patient_by_id (delete_patient tb i) j = get_patient_by_id tb j) /\
    (forall r, In r (rows (delete_patient tb i)) <->
               In r (rows tb) /\ Row.id r <> i) /\
    seq (delete_patient tb i) = seq tb.
Proof.
  intros tb i.
  unfold get_patient_by_id, select_by_id, delete_patient, delete_by_id.
  cbn [rows seq]. repeat split.
  - rewrite find_after_delete. now rewrite Z.eqb_refl.
  - intros j Hj. rewrite find_after_delete.
    apply Z.eqb_neq in Hj. now rewrite Hj.
  - apply filter_In in H. tauto.
  - apply filter_In in H. destruct H as [_ H].
    apply negb_true_iff in H. unfold has_id in H. now apply Z.eqb_neq in H.
  - intros [Hr Hid]. apply filter_In. split; [exact Hr|].
    apply negb_true_iff. now apply has_id_false.
Qed.

Lemma filter_filter_same {A} (f : A -> bool) (l : list A) :
  filter f (filter f l) = filter f l.
Proof.
  induction l as [|a l IH]; [reflexivity|]. cbn [filter].
  destruct (f a) eqn:E; [|exact IH]. cbn [filter]. rewrite E. now f_equal.
Qed.

(** X2: deleting the same id twice leaves the table as deleting it once. *)
Theorem delete_patient_twice :
  forall tb i,
    delete_patient (delete_patient tb i) i = delete_patient tb i.
Proof.
  intros tb i. unfold delete_patient, delete_by_id. cbn [rows seq].
  now rewrite filter_filter_same.
Qed.

(** X3: deleting an id that no stored row has changes nothing. *)
Theorem delete_patient_absent_id :
  forall tb i,
    (forall r, In r (rows tb) -> Row.id r <> i) ->
    delete_patient tb i = tb.
Proof.
  intros [rs sq] i H. unfold delete_patient, delete_by_id. cbn [rows seq] in *.
  f_equal. induction rs as [|a rs IH]; [reflexivity|]. cbn [filter].
  rewrite (has_id_false i a) by (apply H; now left). cbn [negb].
  f_equal. apply IH. intros r Hr. apply H. now right.
Qed.

Lemma delete_patient_absent_id_witness :
  delete_patient three_patients 77 = three_patients.
Proof.
  apply delete_patient_absent_id.
  simpl. intros r [<-|[<-|[<-|[]]]]; simpl; lia.
Defined.

(** ** update_patient *)

Lemma find_after_overwrite i j new l :
  Row.id new = i ->
  find (has_id j) (map (overwrite i new) l) =
  if (j =? i)%Z
  then option_map (fun _ => new) (find (has_id i) l)
  else find (has_id j) l.
Proof.
  intros Hnew. induction l as [|a l IH]; cbn [map find].
  - now destruct (j =? i)%Z.
  - assert (overwrite i new a = if has_id i a then new else a) as -> by reflexivity.
    rewrite IH. clear IH.
    assert (has_id i new = true) as Hin by (unfold has_id; rewrite Hnew; apply Z.eqb_refl).
    destruct (has_id i a) eqn:Ei.
    + destruct (Z.eqb_spec j i) as [->|Hji].
      * rewrite Hin. reflexivity.
      * unfold has_id in Ei. apply Z.eqb_eq in Ei.
        rewrite (has_id_false j new) by lia.
        rewrite (has_id_false j a) by lia. reflexivity.
    + destruct (Z.eqb_spec j i) as [->|Hji].
      * rewrite Ei. reflexivity.
      * reflexivity.
Qed.

Lemma update_by_id_accepts tb i old f l addr e ph dob doe :
  select_by_id tb i = Some old ->
  (forall r, In r (rows tb) -> Row.id r <> i -> Row.email r <> e) ->
  update_by_id tb i (Some f) (Some l) addr (Some e) ph dob doe
  = inr (mkTable (map (overwrite i (Row.mk i f l addr e ph dob doe)) (rows tb))
                 (seq tb)).
Proof.
  intros Hsel Hfree. unfold update_by_id. rewrite Hsel.
  unfold check_constraints.
  assert (email_taken (filter (fun r => negb (has_id i r)) (rows tb)) e = false) as ->.
  { apply email_taken_false. intros r Hr. apply filter_In in Hr.
    destruct Hr as [Hr Hid]. apply Hfree; [exact Hr|].
    apply negb_true_iff in Hid. unfold has_id in Hid. now apply Z.eqb_neq in Hid. }
  reflexivity.
Qed.

(** X4: on a stored id, with first name, last name and email present and
    the email used by no other row (the row's own email may be kept),
    [update_patient] succeeds; afterwards [get_patient_by_id] returns at that
    id a row with the same id and exactly the new fields, every other id
    reads as before, and the number of rows and the AUTOINCREMENT counter
    are unchanged. *)
Theorem update_then_get_round_trip :
  forall tb i old f l addr e ph dob doe,
    get_patient_by_id tb i = Some old ->
    (forall r, In r (rows tb) -> Row.id r <> i -> Row.email r <> e) ->
    let res := update_patient tb i (Some f) (Some l) addr (Some e) ph dob doe in
    snd res = (true, None) /\
    get_patient_by_id (fst res) i = Some (Row.mk i f l addr e ph dob doe) /\
    (forall j, j <> i -> get_patient_by_id (fst res) j = get_patient_by_id tb j) /\
    List.length (rows (fst res)) = List.length (rows tb) /\
    seq (fst res) = seq tb.
Proof.
  intros tb i old f l addr e ph dob doe Hget Hfree res. subst res.
  unfold get_patient_by_id in *. unfold update_patient.
  rewrite (update_by_id_accepts _ _ _ _ _ _ _ _ _ _ Hget Hfree).
  cbn [fst snd]. unfold select_by_id in *. cbn [rows seq]. repeat split.
  - rewrite find_after_overwrite by reflexivity.
    rewrite Z.eqb_refl, Hget. reflexivity.
  - intros j Hj. rewrite find_after_overwrite by reflexivity.
    apply Z.eqb_neq in Hj. now rewrite Hj.
  - apply length_map.
Qed.

Lemma update_then_get_round_trip_witness :
  get_patient_by_id
    (fst (update_patient three_patients 2 (Some "Bob") (Some "Smythe") None
            (Some "b@y.com") (Some "5550001111") None (Some "2024-03-03"))) 2
  = Some (Row.mk 2 "Bob" "Smythe" None "b@y.com" (Some "5550001111") None
                 (Some "2024-03-03")).
Proof.
  assert (forall r, In r (rows three_patients) -> Row.id r <> 2%Z ->
                    Row.email r <> "b@y.com") as H.
  { simpl. intros r [<-|[<-|[<-|[]]]]; simpl; intros Hid; try discriminate.
    now contradiction Hid. }
  exact (proj1 (proj2 (update_then_get_round_trip three_patients 2 smith_b
                         "Bob" "Smythe" None "b@y.com" (Some "5550001111") None
                         (Some "2024-03-03") Logic.eq_refl H))).
Defined.

(** X5: on a stored id, with first and last name present, an email that
    another row already has makes [update_patient] fail with the
    duplicate-email message, and the table stays as it was. *)
Theorem update_patient_duplicate_email :
  forall tb i old f l addr e ph dob doe,
    get_patient_by_id tb i = Some old ->
    (exists r, In r (rows tb) /\ Row.id r <> i /\ Row.email r = e) ->
    update_patient tb i (Some f) (Some l) addr (Some e) ph dob doe
    = (tb, (false, Some "Email already exists.")).
Proof.
  intros tb i old f l addr e ph dob doe Hget (r & Hr & Hid & He).
  unfold get_patient_by_id in Hget.
  unfold update_patient, update_by_id. rewrite Hget. unfold check_constraints.
  assert (email_taken (filter (fun r => negb (has_id i r)) (rows tb)) e = true) as ->.
  { apply email_taken_true. exists r. split; [|exact He].
    apply filter_In. split; [exact Hr|]. apply negb_true_iff. now apply has_id_false. }
  reflexivity.
Qed.

Lemma update_patient_duplicate_email_witness :
  update_patient three_patients 2 (Some "Bob") (Some "Smith") None (Some "a@x.com")
                 None None (Some "2024-01-01")
  = (three_patients, (false, Some "Email already exists.")).
Proof.
  apply (update_patient_duplicate_email three_patients 2 smith_b);
    [reflexivity|].
  exists smith_a. repeat split; [simpl; tauto | simpl; lia].
Defined.

(** X6: a failed write changes nothing: whenever [add_patient] or
    [update_patient] returns a false success flag, the table it leaves is
    the table it was given, and the error message is present. *)
Theorem failed_write_leaves_table :
  forall tb i fn ln addr em ph dob doe,
    (fst (snd (add_patient tb fn ln addr em ph dob doe)) = false ->
     fst (add_patient tb fn ln addr em ph dob doe) = tb /\
     snd (snd (add_patient tb fn ln addr em ph dob doe)) <> None) /\
    (fst (snd (update_patient tb i fn ln addr em ph dob doe)) = false ->
     fst (update_patient tb i fn ln addr em ph dob doe) = tb /\
     snd (snd (update_patient tb i fn ln addr em ph dob doe)) <> None).
Proof.
  intros tb i fn ln addr em ph dob doe. split.
  - unfold add_patient.
    destruct (insert tb fn ln addr em ph dob doe) as [[msg]|tb'];
      cbn [fst snd]; [|discriminate].
    intros _. split; [reflexivity|]. unfold on_integrity_error.
    destruct (Py.contains _ msg); discriminate.
  - unfold update_patient.
    destruct (update_by_id tb i fn ln addr em ph dob doe) as [[msg]|tb'];
      cbn [fst snd]; [|discriminate].
    intros _. split; [reflexivity|]. unfold on_integrity_error.
    destruct (Py.contains _ msg); discriminate.
Qed.

(** ** The constraints of the table are kept *)

Lemma NoDup_map_filter {A B} (g : A -> B) (f : A -> bool) (l : list A) :
  NoDup (map g l) -> NoDup (map g (filter f l)).
Proof.
  induction l as [|a l IH]; cbn [map filter]; intros H; [constructor|].
  inversion H as [|? ? Hn Hl]; subst. destruct (f a); [|now apply IH].
  cbn [map]. constructor; [|now apply IH].
  intros Hin. apply Hn. apply in_map_iff in Hin. destruct Hin as (x & Hx & Hin).
  apply filter_In in Hin. apply in_map_iff. exists x. tauto.
Qed.

Lemma overwrite_keeps_ids i new l :
  Row.id new = i -> map Row.id (map (overwrite i new) l) = map Row.id l.
Proof.
  intros Hnew. rewrite map_map. apply map_ext. intros r. unfold overwrite.
  destruct (has_id i r) eqn:E; [|reflexivity].
  unfold has_id in E. apply Z.eqb_eq in E. congruence.
Qed.

Lemma overwrite_absent i new l :
  (forall r, In r l -> Row.id r <> i) -> map (overwrite i new) l = l.
Proof.
  intros H. induction l as [|a l IH]; [reflexivity|]. cbn [map].
  unfold overwrite at 1. rewrite (has_id_false i a) by (apply H; now left).
  f_equal. apply IH. intros r Hr. apply H. now right.
Qed.

Lemma overwrite_keeps_emails_distinct i new l :
  NoDup (map Row.id l) -> NoDup (map Row.email l) ->
  (forall r, In r l -> Row.id r <> i -> Row.email r <> Row.email new) ->
  NoDup (map Row.email (map (overwrite i new) l)).
Proof.
  induction l as [|a l IH]; cbn [map]; intros Hid Hem Hfree; [constructor|].
  inversion Hid as [|? ? Hid1 Hid2]; subst.
  inversion Hem as [|? ? Hem1 Hem2]; subst.
  unfold overwrite at 1. destruct (has_id i a) eqn:E.
  - unfold has_id in E. apply Z.eqb_eq in E.
    assert (forall r, In r l -> Row.id r <> i) as Hl.
    { intros r Hr Heq. apply Hid1. apply in_map_iff. exists r. split; [lia|exact Hr]. }
    rewrite (overwrite_absent i new l Hl). constructor; [|exact Hem2].
    intros Hin. apply in_map_iff in Hin. destruct Hin as (r & Hre & Hr).
    apply (Hfree r); [now right | now apply Hl | exact Hre].
  - unfold has_id in E. apply Z.eqb_neq in E. constructor.
    + intros Hin. apply in_map_iff in Hin. destruct Hin as (x & Hx & Hin).
      apply in_map_iff in Hin. destruct Hin as (r & <- & Hr).
      unfold overwrite in Hx. destruct (has_id i r).
      * apply (Hfree a); [now left | exact E | now symmetry].
      * apply Hem1. apply in_map_iff. now exists r.
    + apply IH; [exact Hid2 | exact Hem2|].
      intros r Hr. apply Hfree. now right.
Qed.

Lemma add_patient_keeps_constraints tb fn ln addr em ph dob doe :
  wf_table tb -> wf_table (fst (add_patient tb fn ln addr em ph dob doe)).
Proof.
  intros (Hid & Hem & Hseq). unfold add_patient, insert, check_constraints.
  destruct fn as [f|]; [|now repeat split].
  destruct ln as [l|]; [|now repeat split].
  destruct em as [e|]; [|now repeat split].
  destruct (email_taken (rows tb) e) eqn:E; [now repeat split|].
  cbn [fst]. unfold wf_table. cbn [rows seq].
  rewrite !map_app. cbn [map Row.id Row.email].
  assert (forall r, In r (rows tb) -> (Row.id r < next_rowid tb)%Z) as Hfresh
    by (intros r Hr; now apply next_rowid_fresh).
  split; [|split].
  - apply NoDup_app; [exact Hid | repeat constructor; tauto |].
    intros i Hi [<-|[]]. apply in_map_iff in Hi. destruct Hi as (r & Hr & Hin).
    apply Hfresh in Hin. lia.
  - apply NoDup_app; [exact Hem | repeat constructor; tauto |].
    intros x Hx [<-|[]]. apply in_map_iff in Hx. destruct Hx as (r & Hr & Hin).
    exact (proj1 (email_taken_false _ _) E r Hin Hr).
  - intros r Hr. apply in_app_or in Hr. destruct Hr as [Hr|[<-|[]]].
    + apply Hfresh in Hr. lia.
    + cbn [Row.id]. lia.
Qed.

Lemma update_patient_keeps_constraints tb i fn ln addr em ph dob doe :
  wf_table tb -> wf_table (fst (update_patient tb i fn ln addr em ph dob doe)).
Proof.
  intros (Hid & Hem & Hseq). unfold update_patient, update_by_id.
  destruct (select_by_id tb i); [|now repeat split].
  unfold check_constraints.
  destruct fn as [f|]; [|now repeat split].
  destruct ln as [l|]; [|now repeat split].
  destruct em as [e|]; [|now repeat split].
  destruct (email_taken _ e) eqn:E; [now repeat split|].
  cbn [fst]. unfold wf_table. cbn [rows seq].
  change (fun r => if has_id i r then Row.mk i f l addr e ph dob doe else r)
    with (overwrite i (Row.mk i f l addr e ph dob doe)).
  split; [|split].
  - now rewrite overwrite_keeps_ids.
  - apply overwrite_keeps_emails_distinct; [exact Hid | exact Hem|].
    intros r Hr Hne. cbn [Row.email].
    apply (proj1 (email_taken_false _ _) E). apply filter_In. split; [exact Hr|].
    apply negb_true_iff. now apply has_id_false.
  - intros r Hr. apply in_map_iff in Hr. destruct Hr as (x & <- & Hx).
    unfold overwrite. destruct (has_id i x) eqn:Ex; [|now apply Hseq].
    cbn [Row.id]. unfold has_id in Ex. apply Z.eqb_eq in Ex. rewrite <- Ex.
    now apply Hseq.
Qed.

Lemma delete_patient_keeps_constraints tb i :
  wf_table tb -> wf_table (delete_patient tb i).
Proof.
  intros (Hid & Hem & Hseq). unfold delete_patient, delete_by_id, wf_table.
  cbn [rows seq]. split; [|split].
  - now apply NoDup_map_filter.
  - now apply NoDup_map_filter.
  - intros r Hr. apply filter_In in Hr. now apply Hseq.
Qed.

Lemma run_keeps_constraints tb c : wf_table tb -> wf_table (run tb c).
Proof.
  destruct c; cbn [run]; intros H.
  - now apply add_patient_keeps_constraints.
  - now apply update_patient_keeps_constraints.
  - now apply delete_patient_keeps_constraints.
Qed.

Lemma wf_three_patients : wf_table three_patients.
Proof.
  unfold wf_table. simpl. repeat split.
  - repeat constructor; simpl; intuition lia.
  - repeat constructor; simpl; intuition discriminate.
  - intros r [<-|[<-|[<-|[]]]]; simpl; lia.
Qed.

(** X7: the constraints of the table are an invariant of the record store:
    from a table whose ids are pairwise distinct, whose emails are pairwise
    distinct and whose AUTOINCREMENT counter is at least every id, any
    sequence of adds, updates and deletes, successful or not, leads to a
    table with the same three properties.  The empty table has them. *)
Theorem record_store_keeps_constraints :
  forall tb calls,
    wf_table tb ->
    wf_table (fold_left run calls tb) /\ wf_table empty_table.
Proof.
  intros tb calls H. split.
  - revert tb H. induction calls as [|c calls IH]; cbn [fold_left]; intros tb H.
    + exact H.
    + apply IH. now apply run_keeps_constraints.
  - unfold wf_table. simpl. repeat split; try constructor. intros r [].
Qed.

Lemma record_store_keeps_constraints_witness :
  wf_table (fold_left run sample_calls three_patients).
Proof.
  exact (proj1 (record_store_keeps_constraints three_patients sample_calls
                  wf_three_patients)).
Defined.

(** ** Ids are handed out once *)

Lemma run_seq_grows tb c : (seq tb <= seq (run tb c))%Z.
Proof.
  destruct c; cbn [run].
  - unfold add_patient, insert.
    destruct (check_constraints _ _ _ _) as [e|[[f l] e]]; cbn [fst seq]; [lia|].
    unfold next_rowid. lia.
  - unfold update_patient, update_by_id.
    destruct (select_by_id _ _); cbn [fst]; [|lia].
    destruct (check_constraints _ _ _ _) as [e|[[f l] e]]; cbn [fst seq]; lia.
  - cbn [delete_patient delete_by_id seq]. lia.
Qed.

Lemma run_new_ids_above tb c i :
  (i <= seq tb)%Z ->
  (forall r, In r (rows tb) -> Row.id r <> i) ->
  forall r, In r (rows (run tb c)) -> Row.id r <> i.
Proof.
  intros Hi Hfree. destruct c; cbn [run].
  - unfold add_patient, insert.
    destruct (check_constraints _ _ _ _) as [e|[[f l] e]]; cbn [fst rows];
      [exact Hfree|].
    intros r Hr. apply in_app_or in Hr. destruct Hr as [Hr|[<-|[]]].
    + now apply Hfree.
    + cbn [Row.id]. unfold next_rowid. lia.
  - unfold update_patient, update_by_id.
    destruct (select_by_id _ _); cbn [fst]; [|exact Hfree].
    destruct (check_constraints _ _ _ _) as [e|[[f l] e]]; cbn [fst rows];
      [exact Hfree|].
    intros r Hr. apply in_map_iff in Hr. destruct Hr as (x & <- & Hx).
    destruct (has_id patient_id x) eqn:Ex; [|now apply Hfree].
    cbn [Row.id]. unfold has_id in Ex. apply Z.eqb_eq in Ex. rewrite <- Ex.
    now apply Hfree.
  - intros r Hr. cbn [delete_patient delete_by_id rows] in Hr.
    apply filter_In in Hr. now apply Hfree.
Qed.

(** X8: an id is handed out once: if an id is at most the AUTOINCREMENT
    counter and no stored row has it (as the id of a deleted row, in a
    table that respects its constraints), then after any sequence of adds,
    updates and deletes still no row has it. *)
Theorem ids_are_not_reused :
  forall calls tb i,
    (i <= seq tb)%Z ->
    (forall r, In r (rows tb) -> Row.id r <> i) ->
    forall r, In r (rows (fold_left run calls tb)) -> Row.id r <> i.
Proof.
  induction calls as [|c calls IH]; cbn [fold_left]; intros tb i Hi Hfree.
  - exact Hfree.
  - apply IH.
    + pose proof (run_seq_grows tb c). lia.
    + now apply run_new_ids_above.
Qed.

Lemma ids_are_not_reused_witness :
  ~ In 3%Z
      (map Row.id
         (rows (fold_left run
                  [Add (Some "Dee") (Some "Doe") None (Some "d@z.org") None None
                       (Some "2024-02-02")]
                  (delete_patient three_patients 3)))).
Proof.
  intros Hin. apply in_map_iff in Hin. destruct Hin as (r & Hid & Hr).
  refine (ids_are_not_reused _ (delete_patient three_patients 3) 3 _ _ r Hr Hid).
  - simpl. lia.
  - simpl. intros x [<-|[<-|[]]]; simpl; lia.
Defined.

(** ** The newest row comes first *)

Lemma order_by_id_desc_newest l x :
  (forall r, In r l -> (Row.id r < Row.id x)%Z) ->
  order_by_id_desc (l ++ [x]) = x :: order_by_id_desc l.
Proof.
  unfold order_by_id_desc. rewrite fold_right_app. cbn [fold_right insert_desc].
  induction l as [|a l IH]; intros H; [reflexivity|].
  cbn [fold_right]. rewrite IH by (intros r Hr; apply H; now right).
  cbn [insert_desc].
  assert ((Row.id x <? Row.id a)%Z = false) as ->; [|reflexivity].
  apply Z.ltb_ge. specialize (H a (or_introl Logic.eq_refl)). lia.
Qed.

(** X9: after a successful [add_patient] the new row is the first row of
    [get_all_patients], followed by the listing as it was before; its id is
    larger than every id in the table. *)
Theorem add_patient_lists_new_row_first :
  forall tb fn ln addr em ph dob doe,
    fst (snd (add_patient tb fn ln addr em ph dob doe)) = true ->
    exists r,
      get_all_patients (fst (add_patient tb fn ln addr em ph dob doe))
      = r :: get_all_patients tb /\
      (forall x, In x (rows tb) -> (Row.id x < Row.id r)%Z) /\
      Some (Row.email r) = em.
Proof.
  intros tb fn ln addr em ph dob doe Hok.
  destruct (add_patient_success_inv _ _ _ _ _ _ _ _ Hok)
    as (f & l & e & -> & -> & -> & Heq).
  rewrite Heq. cbn [fst]. unfold get_all_patients. cbn [rows].
  exists (Row.mk (next_rowid tb) f l addr e ph dob doe).
  assert (forall x, In x (rows tb) ->
                    (Row.id x < Row.id (Row.mk (next_rowid tb) f l addr e ph dob doe))%Z)
    as Hfresh by (intros x Hx; now apply next_rowid_fresh).
  split; [|split; [exact Hfresh | reflexivity]].
  now apply order_by_id_desc_newest.
Qed.

Lemma add_patient_lists_new_row_first_witness :
  exists r,
    get_all_patients
      (fst (add_patient three_patients (Some "Dee") (Some "Doe") None
              (Some "d@z.org") None None (Some "2024-02-02")))
    = r :: [jones_c; smith_b; smith_a].
Proof.
  destruct (add_patient_lists_new_row_first three_patients (Some "Dee")
              (Some "Doe") None (Some "d@z.org") None None (Some "2024-02-02")
              Logic.eq_refl) as (r & Hr & _).
  exists r. exact Hr.
Defined.

(** ** get_all_last_names *)

Lemma StronglySorted_filter {A} (R : A -> A -> Prop) (f : A -> bool) l :
  StronglySorted R l -> StronglySorted R (filter f l).
Proof.
  induction 1 as [|a l Hs IH Ha]; cbn [filter]; [constructor|].
  destruct (f a); [|exact IH]. constructor; [exact IH|].
  rewrite Forall_forall in *. intros x Hx. apply filter_In in Hx. now apply Ha.
Qed.

(** X10: [get_all_last_names] returns the last names of the stored rows,
    each once, in strictly ascending string order, and leaves the empty
    last name out. *)
Theorem get_all_last_names_sorted_distinct :
  forall tb,
    StronglySorted str_lt (get_all_last_names tb) /\
    (forall n, In n (get_all_last_names tb) <->
               n <> "" /\ exists r, In r (rows tb) /\ Row.last_name r = n).
Proof.
  intros tb. unfold get_all_last_names, select_distinct_last_name. split.
  - apply StronglySorted_filter. apply sorted_strict. apply NoDup_nodup.
  - intros n. rewrite filter_In, truthy_true. split.
    + intros [Hin Hn]. split; [exact Hn|].
      apply (Permutation_in _ (sorted_perm _)) in Hin.
      apply nodup_In, in_map_iff in Hin. destruct Hin as (r & Hr & Hin).
      now exists r.
    + intros [Hn (r & Hr & <-)]. split; [|exact Hn].
      apply (Permutation_in _ (Permutation_sym (sorted_perm _))).
      apply nodup_In. now apply in_map.
Qed.

(** ** Running the migration again *)

Lemma mem_app_last c cols x :
  mem c (cols ++ [x]) = mem c cols || (x =? c)%string.
Proof.
  unfold mem. rewrite existsb_app. cbn [existsb]. now rewrite orb_false_r.
Qed.

Lemma backfill_row_fixed today r :
  Row.date_of_entry r <> None -> backfill_row today r = r.
Proof.
  unfold backfill_row. destruct (Row.date_of_entry r); [reflexivity | congruence].
Qed.

Lemma backfill_rows_fixed today rs :
  (forall r, In r rs -> Row.date_of_entry r <> None) ->
  map (backfill_row today) rs = rs.
Proof.
  intros H. induction rs as [|a rs IH]; [reflexivity|]. cbn [map].
  rewrite backfill_row_fixed by (apply H; now left).
  f_equal. apply IH. intros r Hr. apply H. now right.
Qed.

Lemma migrate_db_columns today db db' :
  migrate_db today db = Some db' ->
  has_table db' = true /\
  mem "date_of_birth" (columns db') = true /\
  mem "date_of_entry" (columns db') = true.
Proof.
  unfold migrate_db. destruct (has_table db) eqn:Ht; [|discriminate].
  intros H. injection H as <-.
  destruct (mem "date_of_birth" (columns db)) eqn:E1,
           (mem "date_of_entry" (columns db)) eqn:E2;
    cbn [negb backfill add_column has_table columns];
    rewrite ?mem_app_last, ?E1, ?E2; repeat split; try exact Ht;
    try reflexivity; try (now rewrite orb_true_r).
Qed.

(** X11: running the migration again changes nothing: once [migrate_db]
    has completed, a second run, on whatever date, completes and returns
    the database as the first run left it. *)
Theorem migrate_db_again_changes_nothing :
  forall today db db' later,
    migrate_db today db = Some db' ->
    migrate_db later db' = Some db'.
Proof.
  intros today db db' later Hm.
  destruct (migrate_db_columns _ _ _ Hm) as (Ht & Hb & He).
  pose proof (migrate_db_dated _ _ _ Hm) as Hd.
  unfold migrate_db. rewrite Ht, Hb, He. cbn [negb]. unfold backfill.
  rewrite (backfill_rows_fixed later _ Hd).
  destruct db' as [t cols [rs sq]]. cbn in *. now subst.
Qed.

Lemma migrate_db_again_changes_nothing_witness :
  exists db',
    migrate_db "2024-05-01" legacy_database = Some db' /\
    migrate_db "2025-01-01" db' = Some db'.
Proof.
  eexists. split; [reflexivity|].
  apply (migrate_db_again_changes_nothing "2024-05-01" legacy_database).
  reflexivity.
Defined.

(** X12: the migration keeps what is stored: after [migrate_db] there are
    as many rows, in the same order, each with its id, names, address, email
    and phone; a date_of_birth is kept when that column was there (and is
    NULL otherwise); the column list is the old one with the missing date
    columns appended, and the AUTOINCREMENT counter is untouched. *)
Theorem migrate_db_keeps_data :
  forall today db db',
    migrate_db today db = Some db' ->
    Forall2 (fun r r' =>
               Row.id r' = Row.id r /\
               Row.first_name r' = Row.first_name r /\
               Row.last_name r' = Row.last_name r /\
               Row.address r' = Row.address r /\
               Row.email r' = Row.email r /\
               Row.phone r' = Row.phone r /\
               Row.date_of_birth r' =
               (if mem "date_of_birth" (columns db)
                then Row.date_of_birth r else None))
            (rows (content db)) (rows (content db')) /\
    seq (content db') = seq (content db) /\
    columns db' =
    columns db
    ++ (if mem "date_of_birth" (columns db) then [] else ["date_of_birth"])
    ++ (if mem "date_of_entry" (columns db) then [] else ["date_of_entry"]).
Proof.
  unfold migrate_db. intros today db db'.
  destruct (has_table db); [|discriminate].
  intros H. injection H as <-.
  destruct (mem "date_of_birth" (columns db)), (mem "date_of_entry" (columns db));
    cbn [negb backfill add_column has_table columns content rows seq];
    rewrite ?map_map, ?app_nil_r, <- ?app_assoc; (split; [|split; reflexivity]);
    apply Forall2_map_self; intros [i f l a e p dob [d|]];
    unfold backfill_row; simpl; tauto.
Qed.

Lemma migrate_db_keeps_data_witness :
  exists db',
    migrate_db "2024-05-01" legacy_database = Some db' /\
    columns db' = base_columns ++ ["date_of_birth"; "date_of_entry"] /\
    seq (content db') = 1%Z.
Proof.
  eexists. split; [reflexivity|].
  destruct (migrate_db_keeps_data "2024-05-01" legacy_database _ Logic.eq_refl)
    as (_ & Hs & Hc).
  split; [exact Hc | exact Hs].
Defined.

(* ================================================================== *)
(** * Further properties of search_patients *)

Lemma like_underscore p s :
  wildcard_match ("_"%char :: p) s =
  match s with
  | [] => false
  | _ :: s' => wildcard_match p s'
  end.
Proof. reflexivity. Qed.

Lemma like_char_cases (c : ascii) :
  c = "%"%char \/ c = "_"%char \/ literal c.
Proof.
  unfold literal.
  destruct (ascii_dec c "%"%char); [tauto|].
  destruct (ascii_dec c "_"%char); tauto.
Qed.

(** A pattern in two parts matches the strings in two parts. *)
Lemma like_app p : forall q s,
  wildcard_match (p ++ q) s = true <->
  exists s1 s2, s = s1 ++ s2 /\ wildcard_match p s1 = true /\ wildcard_match q s2 = true.
Proof.
  induction p as [|c p IH]; intros q s.
  - cbn [app]. split.
    + intros H. now exists [], s.
    + intros (s1 & s2 & -> & H1 & H2). destruct s1; [exact H2 | discriminate].
  - change ((c :: p) ++ q) with (c :: (p ++ q)).
    destruct (like_char_cases c) as [->|[->|Hc]].
    + rewrite like_percent. split.
      * intros (pre & suf & -> & H). apply IH in H.
        destruct H as (s1 & s2 & -> & H1 & H2).
        exists (pre ++ s1), s2. rewrite app_assoc. repeat split; [|exact H2].
        apply like_percent. now exists pre, s1.
      * intros (s1 & s2 & -> & H1 & H2). apply like_percent in H1.
        destruct H1 as (pre & suf & -> & H1). exists pre, (suf ++ s2).
        rewrite app_assoc. split; [reflexivity|]. apply IH. now exists suf, s2.
    + rewrite like_underscore. destruct s as [|d s].
      * split; [discriminate|]. intros (s1 & s2 & Heq & H1 & _).
        destruct s1; [discriminate H1 | discriminate Heq].
      * rewrite IH. split.
        -- intros (s1 & s2 & -> & H1 & H2). now exists (d :: s1), s2.
        -- intros (s1 & s2 & Heq & H1 & H2). destruct s1 as [|x s1];
             [discriminate H1|].
           cbn [app] in Heq. injection Heq as -> ->.
           rewrite like_underscore in H1. now exists s1, s2.
    + rewrite (like_literal_cons _ _ _ Hc). destruct s as [|d s].
      * split; [discriminate|]. intros (s1 & s2 & Heq & H1 & _).
        rewrite (like_literal_cons _ _ _ Hc) in H1.
        destruct s1; [discriminate H1 | discriminate Heq].
      * rewrite andb_true_iff, IH. split.
        -- intros [Hd (s1 & s2 & -> & H1 & H2)]. exists (d :: s1), s2.
           repeat split; [|exact H2].
           rewrite (like_literal_cons _ _ _ Hc). now rewrite Hd, H1.
        -- intros (s1 & s2 & Heq & H1 & H2).
           rewrite (like_literal_cons _ _ _ Hc) in H1.
           destruct s1 as [|x s1]; [discriminate H1|].
           cbn [app] in Heq. injection Heq as -> ->.
           apply andb_true_iff in H1. destruct H1 as [Hd H1].
           split; [exact Hd|]. now exists s1, s2.
Qed.

Lemma like_percent_alone s : wildcard_match ["%"%char] s = true.
Proof. apply like_percent. exists s, []. now rewrite app_nil_r. Qed.

Lemma like_contains_any q s :
  like_chars (Py.chars ("%" ++ q ++ "%")%string) (Py.chars s) = true <->
  like_within q s.
Proof.
  unfold like_chars, like_within. fold (text_read s).
  destruct (in_dec ascii_dec zero (Py.chars q)) as [Hz|Hz].
  - rewrite (query_pattern_cut q Hz), like_percent. split.
    + intros (pre & suf & Heq & H). exists pre, suf, [].
      rewrite app_nil_r. repeat split; assumption.
    + intros (pre & mid & post & Heq & H & Hp). rewrite (Hp Hz), app_nil_r in Heq.
      now exists pre, mid.
  - rewrite (query_pattern_whole q Hz), like_percent.
    assert (text_read q = Py.chars q) as -> by apply (c_string_whole _ Hz).
    split.
    + intros (pre & suf & Heq & H). apply like_app in H.
      destruct H as (mid & post & -> & H & _). exists pre, mid, post.
      repeat split; [exact Heq | exact H | intros Hin; contradiction].
    + intros (pre & mid & post & Heq & H & _). exists pre, (mid ++ post).
      split; [exact Heq|]. apply like_app. exists mid, post.
      repeat split; [exact H | apply like_percent_alone].
Qed.

Lemma like_suffix_any d s :
  like_chars (Py.chars ("%@" ++ d)%string) (Py.chars s) = true <->
  like_at_end ("@" ++ d) s.
Proof.
  unfold like_chars, like_at_end. fold (text_read s).
  rewrite domain_pattern_read, like_percent.
  assert (text_read ("@" ++ d) = "@"%char :: text_read d) as ->.
  { unfold text_read. rewrite chars_app. reflexivity. }
  reflexivity.
Qed.

(** LIKE does not tell apart two patterns that differ in the case of ASCII
    letters only. *)
Lemma lower_nul c : (lower c =? zero)%char = (c =? zero)%char.
Proof. destruct c as [[] [] [] [] [] [] [] []]; reflexivity. Qed.


Lemma holds_some b : holds (Some b) = true <-> b = true.
Proof. destruct b; simpl; split; congruence. Qed.

(** What the assembled WHERE clause asks of a row, LIKE by LIKE. *)
Lemma search_where_holds q l d r :
  holds (eval (search_where q l d) r) = true <->
  (q <> "" ->
   like_chars (Py.chars ("%" ++ q ++ "%")%string) (Py.chars (Row.first_name r)) = true \/
   like_chars (Py.chars ("%" ++ q ++ "%")%string) (Py.chars (Row.last_name r)) = true \/
   like_chars (Py.chars ("%" ++ q ++ "%")%string) (Py.chars (Row.email r)) = true \/
   exists p, Row.phone r = Some p /\
             like_chars (Py.chars ("%" ++ q ++ "%")%string) (Py.chars p) = true) /\
  (forall v, active l v -> Row.last_name r = v) /\
  (forall v, active d v ->
             like_chars (Py.chars ("%@" ++ v)%string) (Py.chars (Row.email r)) = true).
Proof.
  unfold search_where. cbv zeta.
  assert (forall c,
    holds (eval match d with
                | Some v => if Py.truthy v && negb (v =? "All")%string
                            then CAnd c (CLike col_email ("%@" ++ v)%string) else c
                | None => c
                end r) = true <->
    holds (eval c r) = true /\
    (forall v, active d v ->
       like_chars (Py.chars ("%@" ++ v)%string) (Py.chars (Row.email r)) = true))
    as Hd.
  { intros c. unfold active. destruct d as [v|].
    - destruct (Py.truthy v && negb (v =? "All")%string) eqn:E.
      + apply switch_on in E. cbn [eval]. rewrite holds_and, andb_true_iff.
        unfold like, col_email. cbn [option_map]. rewrite holds_some. split.
        * intros [H1 H2]. split; [exact H1|]. intros v' (Heq & _).
          now injection Heq as <-.
        * intros [H1 H2]. split; [exact H1|]. apply H2. tauto.
      + split; [|tauto]. intros H. split; [exact H|].
        intros v' (Heq & Hne). injection Heq as <-.
        apply switch_on in Hne. congruence.
    - split; [|tauto]. intros H. split; [exact H|].
      intros v (Heq & _). discriminate. }
  rewrite Hd, eval_last_name_step. clear Hd.
  assert (holds (eval
            (if Py.truthy q
             then CAnd CTrue
                    (COr (COr (COr (CLike col_first_name ("%" ++ q ++ "%")%string)
                                   (CLike col_last_name ("%" ++ q ++ "%")%string))
                              (CLike col_email ("%" ++ q ++ "%")%string))
                         (CLike Row.phone ("%" ++ q ++ "%")%string))
             else CTrue) r) = true <->
          (q <> "" ->
           like_chars (Py.chars ("%" ++ q ++ "%")%string) (Py.chars (Row.first_name r)) = true \/
           like_chars (Py.chars ("%" ++ q ++ "%")%string) (Py.chars (Row.last_name r)) = true \/
           like_chars (Py.chars ("%" ++ q ++ "%")%string) (Py.chars (Row.email r)) = true \/
           exists p, Row.phone r = Some p /\
                     like_chars (Py.chars ("%" ++ q ++ "%")%string) (Py.chars p) = true))
    as Hq.
  { destruct (Py.truthy q) eqn:E.
    - apply truthy_true in E. cbn [eval].
      rewrite holds_and, !holds_or. cbn [holds andb].
      unfold like, col_first_name, col_last_name, col_email. cbn [option_map].
      rewrite !orb_true_iff, !holds_some.
      assert (holds (option_map
                       (fun s => like_chars (Py.chars ("%" ++ q ++ "%")%string)
                                            (Py.chars s)) (Row.phone r)) = true <->
              exists p, Row.phone r = Some p /\
                        like_chars (Py.chars ("%" ++ q ++ "%")%string) (Py.chars p) = true)
        as Hp.
      { destruct (Row.phone r) as [p|]; cbn [option_map].
        - rewrite holds_some. split; [intros H; now exists p|].
          intros (p' & Heq & H). now injection Heq as ->.
        - split; [discriminate|]. intros (p' & Heq & _). discriminate. }
      rewrite Hp. tauto.
    - assert (q = "") as ->.
      { destruct (String.eqb_spec q ""); [assumption|].
        apply truthy_true in n. congruence. }
      cbn [eval holds]. split; [intros _ H; congruence | reflexivity]. }
  rewrite Hq. tauto.
Qed.

(** The rows of a search, for any query. *)
Lemma search_patients_In :
  forall tb query last_name_filter email_domain_filter r,
    In r (search_patients tb query last_name_filter email_domain_filter) <->
    In r (rows tb) /\ keeps_like query last_name_filter email_domain_filter r.
Proof.
  intros tb q l d r. unfold search_patients. rewrite select_where_In.
  rewrite search_where_holds. unfold keeps_like.
  rewrite !like_contains_any.
  assert ((exists p, Row.phone r = Some p /\
             like_chars (Py.chars ("%" ++ q ++ "%")%string) (Py.chars p) = true) <->
          (exists p, Row.phone r = Some p /\ like_within q p)) as Hp.
  { split; intros (p & Hp & H); exists p; (split; [exact Hp|]);
      now apply like_contains_any. }
  rewrite Hp.
  assert ((forall v, active d v ->
             like_chars (Py.chars ("%@" ++ v)%string) (Py.chars (Row.email r)) = true) <->
          (forall v, active d v -> like_at_end ("@" ++ v) (Row.email r))) as Hd.
  { split; intros H v Hv; apply like_suffix_any; now apply H. }
  rewrite Hd. tauto.
Qed.

(** X13: for every query and every filter arguments, wildcards and NUL
    characters included, whose patterns are within the length limit of LIKE,
    [search_patients] returns exactly the stored rows that pass every active
    filter.  LIKE reads a text and a pattern up to their first NUL
    character.  The query, when not empty, must match, read as a LIKE
    pattern, some stretch of what LIKE reads of first_name, last_name, email
    or a non-NULL phone, and when the query holds a NUL that stretch must be
    the end of the text; the last-name filter must equal last_name; "@"
    followed by the domain filter, read as a LIKE pattern, must match the
    end of what LIKE reads of the email. *)
Theorem search_patients_any_query :
  forall tb query last_name_filter email_domain_filter r,
    patterns_fit query email_domain_filter ->
    (In r (search_patients tb query last_name_filter email_domain_filter) <->
     In r (rows tb) /\ keeps_like query last_name_filter email_domain_filter r).
Proof. intros tb q l d r _. apply search_patients_In. Qed.

Lemma search_patients_any_query_witness :
  In jones_c (search_patients three_patients "5_5%7" None (Some "X.c_m")).
Proof.
  assert (patterns_fit "5_5%7" (Some "X.c_m")) as Hf.
  { split; [reflexivity|]. intros v H. injection H as <-. reflexivity. }
  apply (proj2 (search_patients_any_query three_patients "5_5%7" None
                  (Some "X.c_m") jones_c Hf)).
  split; [simpl; tauto|]. split; [|split].
  - intros _. right. right. right. exists "5551234567". split; [reflexivity|].
    exists [], (Py.chars "5551234567"), []. split; [reflexivity|].
    split; [reflexivity|]. intros _. reflexivity.
  - intros v (H & _). discriminate H.
  - intros v (H & _). injection H as <-.
    exists ["c"%char], (Py.chars "@x.com"). split; reflexivity.
Defined.




(** ** The case of the query *)

Lemma lower_wildcard c :
  (lower c = "%"%char -> c = "%"%char) /\ (lower c = "_"%char -> c = "_"%char).
Proof.
  destruct c as [[] [] [] [] [] [] [] []]; vm_compute; split; intros H;
    (reflexivity || discriminate H).
Qed.

Lemma lower_same_wildcard a b :
  lower a = lower b ->
  (a = "%"%char -> b = "%"%char) /\ (a = "_"%char -> b = "_"%char).
Proof.
  intros H. split; intros ->.
  - apply (proj1 (lower_wildcard b)). now rewrite <- H.
  - apply (proj2 (lower_wildcard b)). now rewrite <- H.
Qed.

Lemma like_percent_step p s :
  wildcard_match ("%"%char :: p) s =
  wildcard_match p s ||
  match s with
  | [] => false
  | _ :: s' => wildcard_match ("%"%char :: p) s'
  end.
Proof. destruct s; reflexivity. Qed.

Lemma like_nocase p : forall p',
  same_nocase p p' -> forall s, wildcard_match p s = wildcard_match p' s.
Proof.
  unfold same_nocase.
  induction p as [|c p IH]; intros [|c' p'] H; try discriminate H;
    [reflexivity|].
  cbn [map] in H. injection H as Hc Hp. specialize (IH p' Hp).
  destruct (lower_same_wildcard c c' Hc) as [H1 H2].
  destruct (lower_same_wildcard c' c (Logic.eq_sym Hc)) as [H1' H2'].
  destruct (like_char_cases c) as [->|[->|Hl]].
  - rewrite (H1 Logic.eq_refl). intros s. induction s as [|d s IHs].
    + rewrite !like_percent_step. now rewrite IH.
    + rewrite (like_percent_step p), (like_percent_step p'). now rewrite IH, IHs.
  - rewrite (H2 Logic.eq_refl). intros s. rewrite !like_underscore.
    destruct s; [reflexivity | apply IH].
  - assert (literal c') as Hl'.
    { destruct Hl as [Ha Hb]. split; intros ->.
      - now apply Ha, H1'.
      - now apply Hb, H2'. }
    intros s. rewrite (like_literal_cons _ _ _ Hl), (like_literal_cons _ _ _ Hl').
    destruct s as [|d s]; [reflexivity|]. now rewrite Hc, IH.
Qed.

Lemma c_string_nocase p : forall p',
  same_nocase p p' -> same_nocase (c_string p) (c_string p').
Proof.
  unfold same_nocase.
  induction p as [|c p IH]; intros [|c' p'] H; try discriminate H;
    [reflexivity|].
  cbn [map] in H. injection H as Hc Hp. cbn [c_string].
  rewrite <- (lower_nul c), <- (lower_nul c'), Hc.
  destruct (lower c' =? zero)%char; [reflexivity|].
  cbn [map]. now rewrite Hc, (IH p' Hp).
Qed.

Lemma like_chars_nocase p p' s :
  same_nocase p p' -> like_chars p s = like_chars p' s.
Proof.
  intros H. unfold like_chars. apply like_nocase. now apply c_string_nocase.
Qed.

(** X15: the case of the ASCII letters of the query does not matter: two
    queries that differ only in it give the same search result. *)
Theorem search_patients_ignores_case_of_query :
  forall tb query query' last_name_filter email_domain_filter,
    same_nocase (Py.chars query) (Py.chars query') ->
    search_patients tb query last_name_filter email_domain_filter
    = search_patients tb query' last_name_filter email_domain_filter.
Proof.
  intros tb q q' l d H. unfold search_patients, select_where. f_equal.
  apply filter_ext. intros r.
  apply eq_true_iff_eq. rewrite !search_where_holds.
  assert (forall x, like_chars (Py.chars ("%" ++ q ++ "%")%string) x
                    = like_chars (Py.chars ("%" ++ q' ++ "%")%string) x) as Hl.
  { intros x. apply like_chars_nocase. unfold same_nocase in *.
    rewrite !chars_app, !map_app. now rewrite H. }
  assert (q = "" <-> q' = "") as He.
  { unfold same_nocase in H. split; intros ->.
    - apply chars_inj. cbn in H. symmetry in H. apply map_eq_nil in H. exact H.
    - apply chars_inj. cbn in H. apply map_eq_nil in H. exact H. }
  rewrite !Hl.
  assert ((exists p, Row.phone r = Some p /\
             like_chars (Py.chars ("%" ++ q ++ "%")%string) (Py.chars p) = true) <->
          (exists p, Row.phone r = Some p /\
             like_chars (Py.chars ("%" ++ q' ++ "%")%string) (Py.chars p) = true))
    as Hp.
  { split; intros (p & Hp & Hm); exists p; (split; [exact Hp|]);
      [now rewrite <- Hl | now rewrite Hl]. }
  rewrite Hp. tauto.
Qed.

Lemma search_patients_ignores_case_of_query_witness :
  search_patients three_patients "SMITH" None None
  = search_patients three_patients "smith" None None.
Proof.
  apply search_patients_ignores_case_of_query. reflexivity.
Defined.

(* ================================================================== *)
(** * Further properties of the validators *)

Lemma phone_shape_length s :
  phone_shape s ->
  10 <= List.length s <= 16 /\
  forall c, In c s -> one_of " -()." c = false.
Proof.
  intros (sign & ds & -> & Hs & Hl & Hd). rewrite length_app. split.
  - destruct Hs as [->| ->]; cbn [List.length]; lia.
  - intros c Hin. apply in_app_or in Hin. destruct Hin as [Hin|Hin].
    + destruct Hs as [->| ->]; [destruct Hin|].
      destruct Hin as [<-|[]]. reflexivity.
    + unfold all_in in Hd. rewrite Forall_forall in Hd. apply Hd in Hin.
      destruct c as [[] [] [] [] [] [] [] []]; try discriminate Hin; reflexivity.
Qed.

(** X16: [is_valid_phone] accepts every string made of an optional "+" and
    10 to 15 of the digits 0 to 9, and every such string followed by one
    newline.  A string it accepts has 10 to 17 characters and none of the
    separators space, "-", "(", ")" and ".". *)
Theorem is_valid_phone_accepts_numbers :
  forall s,
    ((phone_shape (Py.chars s) \/
      exists before, Py.chars s = before ++ [newline] /\ phone_shape before) ->
     is_valid_phone s = true) /\
    (is_valid_phone s = true ->
     10 <= List.length (Py.chars s) <= 17 /\
     forall c, In c (Py.chars s) -> one_of " -()." c = false).
Proof.
  intros s. split; [apply is_valid_phone_accepts|].
  intros H. apply is_valid_phone_accepts in H.
  destruct H as [H|(before & -> & H)]; apply phone_shape_length in H;
    destruct H as [Hl Hc].
  - split; [lia | exact Hc].
  - rewrite length_app. cbn [List.length]. split; [lia|].
    intros c Hin. apply in_app_or in Hin.
    destruct Hin as [Hin|[<-|[]]]; [now apply Hc | reflexivity].
Qed.

Lemma is_valid_phone_accepts_numbers_witness :
  is_valid_phone "+15551230000" = true /\
  10 <= List.length (Py.chars "+15551230000") <= 17.
Proof.
  destruct (is_valid_phone_accepts_numbers "+15551230000") as [Ha Hb].
  assert (is_valid_phone "+15551230000" = true) as Hv.
  { apply Ha. left. exists ["+"%char], (Py.chars "15551230000").
    split; [reflexivity|]. split; [now right|].
    split; [simpl; lia | repeat constructor]. }
  split; [exact Hv | exact (proj1 (Hb Hv))].
Defined.

(** X17: [is_valid_email] accepts exactly the strings local-part "@" domain
    "." final-label (one or more of [A-Za-z0-9._%+-], then "@", then one or
    more of [A-Za-z0-9.-], then ".", then two or more letters), and those
    strings followed by one newline; every other string is rejected. *)
Theorem is_valid_email_characterised :
  forall s,
    is_valid_email s = true <->
    email_shape (Py.chars s) \/
    exists before, Py.chars s = before ++ [newline] /\ email_shape before.
Proof. exact is_valid_email_accepts. Qed.

Lemma class_without_at p s :
  p "@"%char = false -> all_in p s -> ~ In "@"%char s.
Proof.
  unfold all_in. intros Hp Hs Hin. rewrite Forall_forall in Hs.
  apply Hs in Hin. congruence.
Qed.

Lemma email_shape_one_at s :
  email_shape s ->
  exists local rest,
    s = local ++ "@"%char :: rest /\ local <> [] /\
    ~ In "@"%char local /\ ~ In "@"%char rest.
Proof.
  intros (local & dom & tld & -> & Hl1 & Hl2 & _ & Hd & _ & Ht).
  exists local, (dom ++ "."%char :: tld). repeat split; [exact Hl1 | |].
  - now apply (class_without_at local_char).
  - intros Hin. apply in_app_or in Hin. destruct Hin as [Hin|[Hin|Hin]].
    + now apply (class_without_at domain_char dom).
    + discriminate Hin.
    + now apply (class_without_at alpha tld).
Qed.

(** X18: an address that [is_valid_email] accepts has exactly one "@",
    after a non-empty local part; [split("@")] cuts it in two, and the
    domain that [get_all_email_domains] lists for it is all the text after
    the "@". *)
Theorem valid_email_has_one_at :
  forall e,
    is_valid_email e = true ->
    exists local rest,
      Py.chars e = local ++ "@"%char :: rest /\
      local <> [] /\
      ~ In "@"%char local /\ ~ In "@"%char rest /\
      Py.split "@" e = [Py.str local; Py.str rest] /\
      domain e = Py.str rest.
Proof.
  intros e H. apply is_valid_email_accepts in H.
  assert (exists local rest,
             Py.chars e = local ++ "@"%char :: rest /\ local <> [] /\
             ~ In "@"%char local /\ ~ In "@"%char rest) as Hs.
  { destruct H as [H|(b & Heq & H)];
      apply email_shape_one_at in H; destruct H as (local & rest & Hc & Hl & Hn1 & Hn2).
    - exists local, rest. rewrite <- Hc. tauto.
    - exists local, (rest ++ [newline]). rewrite Heq, Hc, <- app_assoc.
      repeat split; [exact Hl | exact Hn1|].
      intros Hin. apply in_app_or in Hin.
      destruct Hin as [Hin|[Hin|[]]]; [tauto | discriminate Hin]. }
  destruct Hs as (local & rest & Hc & Hl & Hn1 & Hn2).
  exists local, rest.
  assert (Py.split "@" e = [Py.str local; Py.str rest]) as Hsplit.
  { unfold Py.split. rewrite Hc, (split_chars_at_sep _ _ _ Hn1).
    now rewrite (split_chars_no_sep _ _ Hn2). }
  repeat split; try assumption.
  unfold domain. now rewrite Hsplit.
Qed.

Lemma valid_email_has_one_at_witness :
  exists local rest,
    Py.chars "ann.smith@x.com" = local ++ "@"%char :: rest /\
    domain "ann.smith@x.com" = Py.str rest.
Proof.
  destruct (valid_email_has_one_at "ann.smith@x.com" Logic.eq_refl)
    as (local & rest & Hc & _ & _ & _ & _ & Hd).
  exists local, rest. split; assumption.
Defined.

(* ================================================================== *)
(** * Properties of the form handlers *)

(** ** [strip] and [isoformat] *)

Lemma lstrip_chars_head s c t :
  PyStr.lstrip_chars s = c :: t -> PyStr.is_space c = false.
Proof.
  induction s as [|a s IH]; cbn [PyStr.lstrip_chars]; [discriminate|].
  destruct (PyStr.is_space a) eqn:E; [exact IH|].
  intros H. injection H as <- _. exact E.
Qed.

Lemma strip_chars_last s before c :
  PyStr.strip_chars s = before ++ [c] -> PyStr.is_space c = false.
Proof.
  unfold PyStr.strip_chars. intros H.
  apply (f_equal (@rev ascii)) in H.
  rewrite rev_involutive, rev_app_distr in H. cbn [rev app] in H.
  exact (lstrip_chars_head _ _ _ H).
Qed.

Lemma strip_no_final_newline s before :
  Py.chars (PyStr.strip s) <> before ++ [newline].
Proof.
  unfold PyStr.strip. rewrite chars_str. intros H.
  apply strip_chars_last in H. discriminate H.
Qed.

Lemma isoformat_truthy d : Py.truthy (Date.isoformat d) = true.
Proof.
  apply truthy_true. unfold Date.isoformat.
  destruct (Date.zero_padded 4 (Date.year d)); discriminate.
Qed.

(** After [strip], an accepted address has the email shape: no newline is
    left at its end. *)
Lemma stripped_email_shape s :
  is_valid_email (PyStr.strip s) = true ->
  email_shape (Py.chars (PyStr.strip s)).
Proof. apply is_valid_email_sound. intros b. apply strip_no_final_newline. Qed.


(** ** The checks *)

Lemma form_errors_none fn ln em ph doe :
  form_errors fn ln em ph doe = [] <->
  PyStr.strip fn <> "" /\
  PyStr.strip ln <> "" /\
  is_valid_email (PyStr.strip em) = true /\
  PyStr.strip em <> "" /\
  (PyStr.strip ph = "" \/ is_valid_phone (PyStr.strip ph) = true) /\
  PyStr.truthy_opt doe = true.
Proof.
  unfold form_errors. cbv zeta.
  rewrite <- !truthy_true.
  assert (PyStr.strip ph = "" <-> Py.truthy (PyStr.strip ph) = false) as ->.
  { unfold Py.truthy. rewrite negb_false_iff. symmetry. apply String.eqb_eq. }
  destruct (Py.truthy (PyStr.strip fn)), (Py.truthy (PyStr.strip ln)),
    (Py.truthy (PyStr.strip em)), (is_valid_email (PyStr.strip em)),
    (Py.truthy (PyStr.strip ph)), (is_valid_phone (PyStr.strip ph)),
    (PyStr.truthy_opt doe);
    cbn [negb app]; split;
    try (intros H; discriminate H);
    try (intros (H1 & H2 & H3 & H4 & H5 & H6); try discriminate;
         destruct H5 as [H5|H5]; discriminate);
    try (intros _; repeat split; tauto);
    try reflexivity.
Qed.

Lemma form_errors_are_errors fn ln em ph doe n :
  In n (form_errors fn ln em ph doe) ->
  n <> Added /\ n <> Updated /\ n <> Deleted.
Proof.
  unfold form_errors. cbv zeta.
  destruct (Py.truthy (PyStr.strip fn)), (Py.truthy (PyStr.strip ln)),
    (Py.truthy (PyStr.strip em)), (is_valid_email (PyStr.strip em)),
    (Py.truthy (PyStr.strip ph)), (is_valid_phone (PyStr.strip ph)),
    (PyStr.truthy_opt doe);
    cbn [negb app In]; intros H;
    repeat (destruct H as [<-|H]; [repeat split; discriminate|]);
    destruct H.
Qed.

Lemma truthy_opt_isoformat doe :
  PyStr.truthy_opt (option_map Date.isoformat doe) = true ->
  exists d, doe = Some d.
Proof. destruct doe as [d|]; [now exists d | discriminate]. Qed.

(** The row the forms pass on satisfies what the checks checked. *)
Lemma checked_row_is_form_row i fn ln addr em ph dob d :
  form_errors fn ln em ph (Some (Date.isoformat d)) = [] ->
  form_row (Row.mk i (PyStr.strip fn) (PyStr.strip ln) (Some (PyStr.strip addr))
                   (PyStr.strip em) (Some (PyStr.strip ph)) dob
                   (Some (Date.isoformat d))).
Proof.
  intros H. apply form_errors_none in H.
  destruct H as (H1 & H2 & H3 & _ & H5 & _).
  unfold form_row. cbn [Row.first_name Row.last_name Row.email Row.phone
                        Row.date_of_entry].
  repeat split; [exact H1 | exact H2 | now apply stripped_email_shape | | discriminate].
  destruct H5 as [H5|H5].
  - left. now rewrite H5.
  - right. eexists. split; [reflexivity|]. exact H5.
Qed.

Lemma add_patient_failed tb fn ln addr em ph dob doe tb' error :
  add_patient tb fn ln addr em ph dob doe = (tb', (false, error)) -> tb' = tb.
Proof.
  unfold add_patient.
  destruct (insert tb fn ln addr em ph dob doe) as [e|t]; intros H.
  - now injection H as <- _.
  - discriminate H.
Qed.

Lemma update_patient_failed tb i fn ln addr em ph dob doe tb' error :
  update_patient tb i fn ln addr em ph dob doe = (tb', (false, error)) -> tb' = tb.
Proof.
  unfold update_patient.
  destruct (update_by_id tb i fn ln addr em ph dob doe) as [e|t]; intros H.
  - now injection H as <- _.
  - discriminate H.
Qed.

Lemma update_patient_succeeded tb i old f l addr e ph dob doe tb' error :
  select_by_id tb i = Some old ->
  update_patient tb i (Some f) (Some l) addr (Some e) ph dob doe
  = (tb', (true, error)) ->
  tb' = mkTable (map (overwrite i (Row.mk i f l addr e ph dob doe)) (rows tb))
                (seq tb).
Proof.
  intros Hsel. unfold update_patient, update_by_id. rewrite Hsel.
  unfold check_constraints. destruct (email_taken _ e).
  - cbn. intros H. discriminate H.
  - intros H. now injection H as <- _.
Qed.

(** What submitting the add form does, case by case. *)
Lemma add_patient_form_cases tb fn ln addr em ph dob doe :
  let res := add_patient_form tb fn ln addr em ph dob doe in
  (fst res = tb /\ snd res <> [Added]) \/
  (exists r d,
      snd res = [Added] /\
      doe = Some d /\
      rows (fst res) = rows tb ++ [r] /\
      Row.first_name r = PyStr.strip fn /\
      Row.last_name r = PyStr.strip ln /\
      Row.address r = Some (PyStr.strip addr) /\
      Row.email r = PyStr.strip em /\
      Row.phone r = Some (PyStr.strip ph) /\
      Row.date_of_birth r = option_map Date.isoformat dob /\
      Row.date_of_entry r = Some (Date.isoformat d) /\
      form_row r).
Proof.
  cbv zeta. unfold add_patient_form. cbv zeta.
  destruct (form_errors fn ln em ph (option_map Date.isoformat doe))
    as [|n errs] eqn:E.
  - pose proof (proj1 (form_errors_none _ _ _ _ _) E) as (_ & _ & _ & _ & _ & Hd).
    destruct (truthy_opt_isoformat _ Hd) as [d ->]. cbn [option_map] in *.
    destruct (add_patient tb (Some (PyStr.strip fn)) (Some (PyStr.strip ln))
                (Some (PyStr.strip addr)) (Some (PyStr.strip em))
                (Some (PyStr.strip ph)) (option_map Date.isoformat dob)
                (Some (Date.isoformat d))) as [tb' [[|] error]] eqn:Ea.
    + right.
      assert (fst (snd (add_patient tb (Some (PyStr.strip fn))
                (Some (PyStr.strip ln)) (Some (PyStr.strip addr))
                (Some (PyStr.strip em)) (Some (PyStr.strip ph))
                (option_map Date.isoformat dob) (Some (Date.isoformat d)))) = true)
        as Hok by now rewrite Ea.
      destruct (add_patient_success_inv _ _ _ _ _ _ _ _ Hok)
        as (f & l & e & Hf & Hl & He & Heq).
      injection Hf as <-. injection Hl as <-. injection He as <-.
      rewrite Heq in Ea. injection Ea as <- _.
      eexists. exists d. cbn [fst snd rows].
      repeat split; try reflexivity;
        apply (checked_row_is_form_row _ _ _ _ _ _ _ _ E).
    + left. cbn [fst snd]. split; [|discriminate].
      exact (add_patient_failed _ _ _ _ _ _ _ _ _ _ Ea).
  - left. cbn [fst snd]. split; [reflexivity|]. intros H.
    assert (In Added (n :: errs)) as Hin by (rewrite H; now left).
    rewrite <- E in Hin. apply form_errors_are_errors in Hin. tauto.
Qed.

(** X19: the add form either leaves the table as it was and does not report
    success, or reports success and appends one row: the stripped inputs,
    with a first and last name that are not empty, an email of exactly the
    email shape (no newline can follow after [strip]), a phone that is empty
    or passes [is_valid_phone], and the date of entry in ISO form. *)
Theorem add_patient_form_stores_checked_rows :
  forall tb first_name last_name address email phone dob_date doe_date,
    let res := add_patient_form tb first_name last_name address email phone
                                dob_date doe_date in
    (fst res = tb /\ snd res <> [Added]) \/
    (exists r d,
        snd res = [Added] /\
        doe_date = Some d /\
        rows (fst res) = rows tb ++ [r] /\
        Row.first_name r = PyStr.strip first_name /\
        Row.last_name r = PyStr.strip last_name /\
        Row.address r = Some (PyStr.strip address) /\
        Row.email r = PyStr.strip email /\
        Row.phone r = Some (PyStr.strip phone) /\
        Row.date_of_birth r = option_map Date.isoformat dob_date /\
        Row.date_of_entry r = Some (Date.isoformat d) /\
        form_row r).
Proof. exact add_patient_form_cases. Qed.

(** What submitting the edit form does, case by case. *)
Lemma edit_patient_form_cases tb i b fn ln addr em ph dob doe :
  let res := edit_patient_form tb i b fn ln addr em ph dob doe in
  (fst res = tb /\ snd res <> [Updated] /\ snd res <> [Deleted]) \/
  (b = DeleteButton /\ snd res = [Deleted] /\ fst res = delete_patient tb i) \/
  (exists d,
      b = UpdateButton /\ snd res = [Updated] /\ doe = Some d /\
      let new := Row.mk i (PyStr.strip fn) (PyStr.strip ln)
                        (Some (PyStr.strip addr)) (PyStr.strip em)
                        (Some (PyStr.strip ph)) (option_map Date.isoformat dob)
                        (Some (Date.isoformat d)) in
      fst res = mkTable (map (overwrite i new) (rows tb)) (seq tb) /\
      form_row new).
Proof.
  cbv zeta. unfold edit_patient_form. cbv zeta.
  destruct (get_patient_by_id tb i) as [old|] eqn:Eg.
  2:{ left. cbn [fst snd]. repeat split; discriminate. }
  destruct b.
  2:{ right. left. cbn [fst snd]. repeat split. }
  destruct (form_errors fn ln em ph (option_map Date.isoformat doe))
    as [|n errs] eqn:E.
  - pose proof (proj1 (form_errors_none _ _ _ _ _) E) as (_ & _ & _ & _ & _ & Hd).
    destruct (truthy_opt_isoformat _ Hd) as [d ->]. cbn [option_map] in *.
    destruct (update_patient tb i (Some (PyStr.strip fn)) (Some (PyStr.strip ln))
                (Some (PyStr.strip addr)) (Some (PyStr.strip em))
                (Some (PyStr.strip ph)) (option_map Date.isoformat dob)
                (Some (Date.isoformat d))) as [tb' [[|] error]] eqn:Eu.
    + right. right. exists d. cbn [fst snd].
      split; [reflexivity|]. split; [reflexivity|]. split; [reflexivity|].
      split; [exact (update_patient_succeeded _ _ _ _ _ _ _ _ _ _ _ _ Eg Eu)|].
      apply (checked_row_is_form_row _ _ _ _ _ _ _ _ E).
    + left. cbn [fst snd].
      split; [exact (update_patient_failed _ _ _ _ _ _ _ _ _ _ _ Eu)|].
      split; discriminate.
  - left. cbn [fst snd]. split; [reflexivity|].
    split; intros H.
    + assert (In Updated (n :: errs)) as Hin by (rewrite H; now left).
      rewrite <- E in Hin. apply form_errors_are_errors in Hin. tauto.
    + assert (In Deleted (n :: errs)) as Hin by (rewrite H; now left).
      rewrite <- E in Hin. apply form_errors_are_errors in Hin. tauto.
Qed.

(** X20: the Update button of the edit form either leaves the table as it
    was and does not report success, or reports success; then
    [get_patient_by_id] returns at the selected id a row with that id and
    the stripped inputs, which passed the checks, and every other id reads
    as before. *)
Theorem edit_patient_form_update :
  forall tb selected_id fn ln addr em ph dob doe,
    let res := edit_patient_form tb selected_id UpdateButton fn ln addr em ph
                                 dob doe in
    (fst res = tb /\ snd res <> [Updated]) \/
    (exists d,
        snd res = [Updated] /\ doe = Some d /\
        let new := Row.mk selected_id (PyStr.strip fn) (PyStr.strip ln)
                          (Some (PyStr.strip addr)) (PyStr.strip em)
                          (Some (PyStr.strip ph)) (option_map Date.isoformat dob)
                          (Some (Date.isoformat d)) in
        get_patient_by_id (fst res) selected_id = Some new /\
        form_row new /\
        (forall j, j <> selected_id ->
                   get_patient_by_id (fst res) j = get_patient_by_id tb j)).
Proof.
  intros tb i fn ln addr em ph dob doe res.
  destruct (edit_patient_form_cases tb i UpdateButton fn ln addr em ph dob doe)
    as [(H1 & H2 & _)|[(Hb & _)|(d & _ & Hs & Hd & Ht & Hf)]].
  - left. now split.
  - discriminate Hb.
  - right. exists d. split; [exact Hs|]. split; [exact Hd|]. cbv zeta.
    subst res. rewrite Ht. unfold get_patient_by_id, select_by_id. cbn [rows].
    assert (find (has_id i) (rows tb) <> None) as Hold.
    { intros Hnone. unfold edit_patient_form in Hs.
      unfold get_patient_by_id, select_by_id in Hs. rewrite Hnone in Hs.
      discriminate Hs. }
    split; [|split; [exact Hf|]].
    + rewrite find_after_overwrite by reflexivity. rewrite Z.eqb_refl.
      destruct (find (has_id i) (rows tb)); [reflexivity | contradiction].
    + intros j Hj. rewrite find_after_overwrite by reflexivity.
      apply Z.eqb_neq in Hj. now rewrite Hj.
Qed.

(** ** What the forms keep true *)

Lemma handle_rows tb s r :
  In r (rows (handle tb s)) -> In r (rows tb) \/ form_row r.
Proof.
  destruct s as [fn ln addr em ph dob doe|i b fn ln addr em ph dob doe];
    cbn [handle].
  - destruct (add_patient_form_cases tb fn ln addr em ph dob doe)
      as [[-> _]|(r0 & d & _ & _ & -> & H)]; [tauto|].
    intros Hin. apply in_app_or in Hin. destruct Hin as [Hin|[<-|[]]]; [tauto|].
    right. apply H.
  - destruct (edit_patient_form_cases tb i b fn ln addr em ph dob doe)
      as [(-> & _)|[(_ & _ & ->)|(d & _ & _ & _ & -> & Hf)]]; [tauto | |].
    + intros Hin. cbn [delete_patient delete_by_id rows] in Hin.
      apply filter_In in Hin. tauto.
    + cbn [rows]. intros Hin. apply in_map_iff in Hin.
      destruct Hin as (x & <- & Hx). unfold overwrite.
      destruct (has_id i x); [right; exact Hf | now left].
Qed.

Lemma handles_keep (Q : Row.t -> Prop) submits :
  (forall r, form_row r -> Q r) ->
  forall tb,
    (forall r, In r (rows tb) -> Q r) ->
    forall r, In r (rows (fold_left handle submits tb)) -> Q r.
Proof.
  intros HQ. induction submits as [|s submits IH]; cbn [fold_left]; intros tb H.
  - exact H.
  - apply IH. intros r Hr. apply handle_rows in Hr.
    destruct Hr as [Hr|Hr]; [now apply H | now apply HQ].
Qed.

(** X21: the forms only ever write checked rows: if every stored row has a
    first and last name that are not empty, an email of the email shape, a
    phone that is empty or passes [is_valid_phone] and a date of entry, then so
    has every row after any sequence of submits of the add form and of the
    edit form (Update or Delete), accepted or refused. *)
Theorem forms_store_only_checked_rows :
  forall tb submits,
    Forall form_row (rows tb) ->
    Forall form_row (rows (fold_left handle submits tb)).
Proof.
  intros tb submits H. rewrite Forall_forall in *.
  apply (handles_keep form_row submits); [tauto | exact H].
Qed.

Lemma forms_store_only_checked_rows_witness :
  Forall form_row (rows (fold_left handle sample_submits empty_table)).
Proof.
  apply forms_store_only_checked_rows. constructor.
Defined.

(** X22: through the forms no NULL date_of_entry is ever stored: [init_db]
    completes on every database, and after it and any sequence of submits of
    the add form and of the edit form no row has a NULL date_of_entry. *)
Theorem forms_never_store_null_date_of_entry :
  forall today db submits,
    exists db',
      init_db today db = Some db' /\
      no_null_date_of_entry (fold_left handle submits (content db')).
Proof.
  intros today db submits.
  destruct (init_db_runs today db) as (db' & Hi & _).
  exists db'. split; [exact Hi|].
  unfold no_null_date_of_entry.
  apply (handles_keep (fun r => Row.date_of_entry r <> None) submits).
  - intros r H. apply H.
  - unfold init_db in Hi. exact (migrate_db_dated _ _ _ Hi).
Qed.

(* ================================================================== *)
(** * Properties of the patient selector *)

(** ** [split] on a separator of several characters *)

Lemma starts_with_app sep rest : Py.starts_with sep (sep ++ rest) = true.
Proof.
  induction sep as [|c sep IH]; [reflexivity|].
  cbn [app Py.starts_with]. now rewrite Ascii.eqb_refl, IH.
Qed.

Lemma split_on_aux_skip sep pre : forall cur rest,
  PyText.split_on_aux sep (List.length pre) cur (pre ++ rest)
  = PyText.split_on_aux sep 0 cur rest.
Proof.
  induction pre as [|x pre IH]; intros cur rest; [reflexivity|].
  cbn [List.length app PyText.split_on_aux]. apply IH.
Qed.

Lemma split_on_aux_match c t cur rest :
  PyText.split_on_aux (c :: t) 0 cur ((c :: t) ++ rest)
  = rev cur :: PyText.split_on_aux (c :: t) 0 [] rest.
Proof.
  change ((c :: t) ++ rest) with (c :: (t ++ rest)).
  cbn [PyText.split_on_aux].
  change (c :: (t ++ rest)) with ((c :: t) ++ rest).
  rewrite starts_with_app.
  replace (List.length (c :: t) - 1) with (List.length t)
    by (cbn [List.length]; lia).
  now rewrite split_on_aux_skip.
Qed.

Lemma split_on_aux_unmatched sep pre : forall cur rest,
  unmatched sep pre rest ->
  PyText.split_on_aux sep 0 cur (pre ++ rest)
  = PyText.split_on_aux sep 0 (rev pre ++ cur) rest.
Proof.
  induction pre as [|x pre IH]; intros cur rest H; [reflexivity|].
  destruct H as [H1 H2]. cbn [app PyText.split_on_aux].
  change (x :: (pre ++ rest)) with ((x :: pre) ++ rest). rewrite H1.
  rewrite (IH _ _ H2). cbn [rev]. now rewrite <- app_assoc.
Qed.

Lemma unmatched_without_first c t pre rest :
  ~ In c pre -> unmatched (c :: t) pre rest.
Proof.
  induction pre as [|x pre IH]; cbn [unmatched]; intros H; [exact I|].
  split.
  - cbn [app Py.starts_with].
    assert ((c =? x)%char = false) as ->; [|reflexivity].
    apply Ascii.eqb_neq. intros ->. apply H. now left.
  - apply IH. intros Hin. apply H. now right.
Qed.

Lemma split_on_aux_last c t cur s :
  ~ In c s -> PyText.split_on_aux (c :: t) 0 cur s = [rev cur ++ s].
Proof.
  intros H. rewrite <- (app_nil_r s) at 1.
  rewrite (split_on_aux_unmatched _ _ _ _ (unmatched_without_first c t s [] H)).
  cbn [PyText.split_on_aux]. now rewrite rev_app_distr, rev_involutive.
Qed.

(** ** [str] and [int] *)

Lemma uint_digits d :
  Forall (fun c => digit c = true)
         (Py.chars (DecimalString.NilEmpty.string_of_uint d)).
Proof. induction d; cbn; constructor; (reflexivity || assumption). Qed.

Lemma parse_uint d : forall acc b,
  d <> Decimal.Nil \/ b = true ->
  PyText.parse_digits acc b (Py.chars (DecimalString.NilEmpty.string_of_uint d))
  = Some (Nat.of_uint_acc d acc).
Proof.
  unfold Py.chars.
  induction d; intros acc b H;
    [ destruct H as [H| ->]; [contradiction | reflexivity] | .. ];
    cbn [DecimalString.NilEmpty.string_of_uint list_ascii_of_string];
    match goal with
    | |- PyText.parse_digits _ _ (?c :: ?s) = _ =>
        change (PyText.parse_digits acc b (c :: s))
          with (PyText.parse_digits (10 * acc + (nat_of_ascii c - 48)) true s)
    end;
    (rewrite IHd by (now right));
    cbn [Nat.of_uint_acc]; rewrite Nat.tail_mul_spec;
    do 2 f_equal; cbn; lia.
Qed.

Lemma to_uint_not_nil n : Nat.to_uint n <> Decimal.Nil.
Proof.
  rewrite <- (DecimalNat.Unsigned.of_to n) at 1.
  rewrite DecimalNat.Unsigned.to_of. apply DecimalFacts.unorm_nonnil.
Qed.

Lemma parse_str_of_nat n :
  PyText.parse_digits 0 false (Py.chars (PyText.str_of_nat n)) = Some n.
Proof.
  unfold PyText.str_of_nat. rewrite parse_uint by (left; apply to_uint_not_nil).
  f_equal. apply DecimalNat.Unsigned.of_to.
Qed.

Lemma str_of_nat_digits n :
  Forall (fun c => digit c = true) (Py.chars (PyText.str_of_nat n)).
Proof. apply uint_digits. Qed.

Lemma str_of_nat_not_empty n : Py.chars (PyText.str_of_nat n) <> [].
Proof.
  intros H. pose proof (parse_str_of_nat n) as Hp. rewrite H in Hp. discriminate Hp.
Qed.

Lemma digit_facts c :
  digit c = true ->
  PyText.is_int_space c = false /\ (c =? "-")%char = false /\
  (c =? "+")%char = false /\ c <> "I"%char /\ c <> ")"%char.
Proof.
  destruct c as [[] [] [] [] [] [] [] []]; intros H; try discriminate H;
    repeat split; discriminate.
Qed.

Lemma skip_int_space_fixed s :
  Forall (fun c => PyText.is_int_space c = false) s -> PyText.skip_int_space s = s.
Proof.
  destruct 1 as [|c s Hc _]; [reflexivity|]. cbn [PyText.skip_int_space].
  now rewrite Hc.
Qed.

Lemma without_int_space_fixed s :
  Forall (fun c => PyText.is_int_space c = false) s ->
  PyText.without_int_space s = s.
Proof.
  intros H. unfold PyText.without_int_space. rewrite (skip_int_space_fixed s H).
  rewrite skip_int_space_fixed by (now apply Forall_rev).
  apply rev_involutive.
Qed.

(** The characters [str] writes for an integer. *)
Lemma str_of_int_chars z :
  exists sign ds,
    Py.chars (PyText.str_of_int z) = sign ++ ds /\
    (sign = [] \/ sign = ["-"%char]) /\
    ds <> [] /\ Forall (fun c => digit c = true) ds.
Proof.
  unfold PyText.str_of_int. destruct (z <? 0)%Z.
  - exists ["-"%char], (Py.chars (PyText.str_of_nat (Z.to_nat (- z)))).
    repeat split; [tauto | apply str_of_nat_not_empty | apply str_of_nat_digits].
  - exists [], (Py.chars (PyText.str_of_nat (Z.to_nat z))).
    repeat split; [tauto | apply str_of_nat_not_empty | apply str_of_nat_digits].
Qed.

Lemma str_of_int_clean z c :
  In c (Py.chars (PyText.str_of_int z)) ->
  PyText.is_int_space c = false /\ c <> "I"%char /\ c <> ")"%char.
Proof.
  destruct (str_of_int_chars z) as (sign & ds & -> & Hs & _ & Hd).
  intros Hin. apply in_app_or in Hin. destruct Hin as [Hin|Hin].
  - destruct Hs as [->| ->]; [destruct Hin|].
    destruct Hin as [<-|[]]. repeat split; discriminate.
  - rewrite Forall_forall in Hd. apply Hd, digit_facts in Hin. tauto.
Qed.

Lemma int_of_str_of_int z : PyText.int_of_str (PyText.str_of_int z) = Some z.
Proof.
  unfold PyText.int_of_str.
  rewrite without_int_space_fixed
    by (apply Forall_forall; intros c Hc; now apply (str_of_int_clean z)).
  unfold PyText.str_of_int. destruct (Z.ltb_spec z 0) as [Hz|Hz].
  - cbn [Py.chars list_ascii_of_string]. rewrite Ascii.eqb_refl.
    fold (Py.chars (PyText.str_of_nat (Z.to_nat (- z)))).
    rewrite parse_str_of_nat. cbn [option_map]. f_equal. lia.
  - pose proof (str_of_nat_digits (Z.to_nat z)) as Hd.
    pose proof (parse_str_of_nat (Z.to_nat z)) as Hp.
    destruct (Py.chars (PyText.str_of_nat (Z.to_nat z))) as [|c ds] eqn:E;
      [discriminate Hp|].
    inversion Hd as [|? ? Hc _]; subst.
    destruct (digit_facts c Hc) as (_ & -> & -> & _).
    rewrite Hp. cbn [option_map]. f_equal. lia.
Qed.

(** ** Reading the id back from an option of the selector *)

Lemma unmatched_names names tail :
  Py.occurs_in id_mark (names ++ [" "%char]) = false ->
  unmatched id_mark (names ++ [" "%char; "("%char]) (id_mark ++ tail).
Proof.
  unfold id_mark, Py.chars. cbn [list_ascii_of_string].
  induction names as [|a names IH]; intros H.
  - cbn [app unmatched Py.starts_with]. repeat split.
  - cbn [app Py.occurs_in] in H. apply orb_false_iff in H. destruct H as [H1 H2].
    cbn [app unmatched]. split; [|now apply IH].
    destruct names as [|b [|c [|d names]]]; cbn [app Py.starts_with] in *.
    + destruct ("I" =? a)%char; reflexivity.
    + destruct ("I" =? a)%char, ("D" =? b)%char; reflexivity.
    + exact H1.
    + exact H1.
Qed.

Lemma filter_keeps_all {A} (f : A -> bool) (l : list A) :
  (forall x, In x l -> f x = true) -> filter f l = l.
Proof.
  intros H. induction l as [|a l IH]; [reflexivity|]. cbn [filter].
  rewrite (H a (or_introl Logic.eq_refl)). f_equal. apply IH.
  intros x Hx. apply H. now right.
Qed.

Lemma remove_paren_after_number z :
  PyText.remove ")" (Py.str (Py.chars (PyText.str_of_int z) ++ [")"%char]))
  = PyText.str_of_int z.
Proof.
  unfold PyText.remove. rewrite chars_str, filter_app.
  cbn [filter]. rewrite Ascii.eqb_refl. cbn [negb]. rewrite app_nil_r.
  rewrite filter_keeps_all; [apply str_chars|].
  intros c Hc. apply negb_true_iff, Ascii.eqb_neq.
  now apply (str_of_int_clean z).
Qed.

Lemma remove_paren_number z :
  PyText.remove ")" (Py.str (Py.chars (PyText.str_of_int z)))
  = PyText.str_of_int z.
Proof.
  unfold PyText.remove. rewrite chars_str.
  rewrite filter_keeps_all; [apply str_chars|].
  intros c Hc. apply negb_true_iff, Ascii.eqb_neq.
  now apply (str_of_int_clean z).
Qed.

Lemma patient_option_chars r :
  Py.chars (patient_option r)
  = ((Py.chars (Row.first_name r) ++ " "%char :: Py.chars (Row.last_name r))
     ++ [" "%char; "("%char])
    ++ id_mark ++ (Py.chars (PyText.str_of_int (Row.id r)) ++ [")"%char]).
Proof.
  unfold patient_option, id_mark. rewrite !chars_app.
  change (Py.chars " ") with [" "%char].
  change (Py.chars " (ID: ") with ([" "%char; "("%char] ++ Py.chars "ID: ").
  change (Py.chars ")") with [")"%char].
  now rewrite <- !app_assoc.
Qed.

Lemma selected_id_plain r :
  plain_names r -> selected_id (patient_option r) = Some (Row.id r).
Proof.
  unfold plain_names, Py.contains. intros H.
  rewrite !chars_app in H. change (Py.chars " ") with [" "%char] in H.
  fold id_mark in H.
  replace (Py.chars (Row.first_name r) ++ [" "%char] ++ Py.chars (Row.last_name r)
           ++ [" "%char])
    with ((Py.chars (Row.first_name r) ++ " "%char :: Py.chars (Row.last_name r))
          ++ [" "%char]) in H
    by (now rewrite <- app_assoc).
  unfold selected_id, PyText.split_on. fold id_mark.
  rewrite patient_option_chars.
  rewrite (split_on_aux_unmatched _ _ _ _ (unmatched_names _ _ H)).
  unfold id_mark at 1 2. unfold Py.chars at 1 2. cbn [list_ascii_of_string].
  rewrite split_on_aux_match.
  rewrite split_on_aux_last.
  2:{ intros Hin. apply in_app_or in Hin. destruct Hin as [Hin|[Hin|[]]].
      - apply (str_of_int_clean (Row.id r)) in Hin. tauto.
      - discriminate Hin. }
  cbn [map rev app]. rewrite remove_paren_after_number.
  apply int_of_str_of_int.
Qed.

(** X23: reading an option of the patient selector gives back the id it
    was written with, provided the text "ID: " does not occur in the
    patient's first name, a space, the last name and a space. *)
Theorem selected_id_reads_back_the_id :
  forall r, plain_names r -> selected_id (patient_option r) = Some (Row.id r).
Proof. exact selected_id_plain. Qed.

Lemma selected_id_reads_back_the_id_witness :
  selected_id (patient_option jones_c) = Some 3%Z.
Proof. apply (selected_id_reads_back_the_id jones_c). reflexivity. Defined.

Lemma find_the_row l r :
  NoDup (map Row.id l) -> In r l -> find (has_id (Row.id r)) l = Some r.
Proof.
  induction l as [|a l IH]; cbn [map In find]; intros Hn Hin; [destruct Hin|].
  inversion Hn as [|? ? Ha Hl]; subst. destruct Hin as [->|Hin].
  - unfold has_id. now rewrite Z.eqb_refl.
  - rewrite has_id_false; [now apply IH|].
    intros Heq. apply Ha. rewrite Heq. now apply in_map.
Qed.

(** X24: in a table whose ids are pairwise distinct, choosing in the
    selector the option of a row that a search returned opens that very
    row: the id read from the option is the row's id and
    [get_patient_by_id] returns the row, provided its names do not hold the
    text "ID: ". *)
Theorem selecting_a_found_patient_opens_it :
  forall tb query last_name_filter email_domain_filter r,
    NoDup (map Row.id (rows tb)) ->
    In r (search_patients tb query last_name_filter email_domain_filter) ->
    plain_names r ->
    exists i,
      selected_id (patient_option r) = Some i /\
      get_patient_by_id tb i = Some r.
Proof.
  intros tb q l d r Hn Hin Hp. exists (Row.id r).
  split; [now apply selected_id_plain|].
  unfold search_patients in Hin. apply select_where_In in Hin.
  unfold get_patient_by_id, select_by_id. apply find_the_row; tauto.
Qed.

Lemma selecting_a_found_patient_opens_it_witness :
  exists i,
    selected_id (patient_option smith_b) = Some i /\
    get_patient_by_id three_patients i = Some smith_b.
Proof.
  apply (selecting_a_found_patient_opens_it three_patients "smi" None
           (Some "y.com") smith_b).
  - simpl. repeat constructor; simpl; intuition lia.
  - simpl. now left.
  - reflexivity.
Defined.

(** X25: the selector can be misled by a name: for a patient whose first
    name is "ID: " followed by a number and "ID:", the id read from the
    option is that number, whatever the patient's own id and last name. *)
Theorem selected_id_misled_by_name :
  forall i own_id last_name addr em ph dob doe,
    selected_id
      (patient_option
         (Row.mk own_id ("ID: " ++ PyText.str_of_int i ++ "ID:")%string last_name
                 addr em ph dob doe))
    = Some i.
Proof.
  intros i j ln addr em ph dob doe.
  unfold selected_id, PyText.split_on, patient_option.
  cbn [Row.first_name Row.last_name Row.id].
  rewrite !chars_app.
  change (Py.chars " ") with [" "%char].
  change (Py.chars "ID:") with ["I"%char; "D"%char; ":"%char].
  rewrite <- !app_assoc.
  change (["I"%char; "D"%char; ":"%char] ++ [" "%char] ++ ?x)
    with (Py.chars "ID: " ++ x).
  set (tail := Py.chars ln ++ Py.chars " (ID: " ++
               Py.chars (PyText.str_of_int j) ++ Py.chars ")").
  unfold Py.chars at 1 2 4. cbn [list_ascii_of_string].
  rewrite split_on_aux_match.
  rewrite split_on_aux_unmatched.
  2:{ apply unmatched_without_first. intros Hin.
      apply (str_of_int_clean i) in Hin. tauto. }
  rewrite split_on_aux_match.
  cbn [map]. rewrite app_nil_r, rev_involutive.
  rewrite remove_paren_number. apply int_of_str_of_int.
Qed.

(* ================================================================== *)
(** * How the operations compose *)

(** X26: after [delete_patient], a search returns the rows it returned
    before except the deleted one, whatever the query and the filters. *)
Theorem search_after_delete :
  forall tb i query last_name_filter email_domain_filter r,
    In r (search_patients (delete_patient tb i) query last_name_filter
                          email_domain_filter) <->
    In r (search_patients tb query last_name_filter email_domain_filter) /\
    Row.id r <> i.
Proof.
  intros tb i q l d r. unfold search_patients. rewrite !select_where_In.
  unfold delete_patient, delete_by_id. cbn [rows].
  rewrite filter_In, negb_true_iff. unfold has_id. rewrite Z.eqb_neq. tauto.
Qed.

(** A LIKE pattern matches its own text. *)
Lemma like_self p : wildcard_match p p = true.
Proof.
  induction p as [|c p IH]; [reflexivity|].
  destruct (like_char_cases c) as [->|[->|Hc]].
  - apply like_percent. now exists ["%"%char], p.
  - rewrite like_underscore. exact IH.
  - rewrite (like_literal_cons _ _ _ Hc). now rewrite Ascii.eqb_refl, IH.
Qed.

Lemma text_read_within s pre q post :
  text_read s = pre ++ Py.chars q ++ post -> text_read q = Py.chars q.
Proof.
  intros H. apply c_string_whole. intros Hz.
  apply (c_string_no_nul (Py.chars s)). fold (text_read s). rewrite H.
  apply in_or_app. right. apply in_or_app. now left.
Qed.

(** X27: a query finds every row that holds its text: if the query occurs,
    character for character, in what LIKE reads (the text up to its first
    NUL character) of the first name, last name, email or phone of a stored
    row, and the pattern is within the length limit of LIKE, then
    [search_patients] with that query and no filter returns the row, also
    when the query holds the characters [%] or [_]. *)
Theorem search_finds_rows_holding_the_query :
  forall tb query r,
    In r (rows tb) ->
    occurs_in_field query r ->
    within_like_limit ("%" ++ query ++ "%") = true ->
    In r (search_patients tb query None None).
Proof.
  intros tb q r Hr (s & Hs & pre & post & Hc) _.
  apply search_patients_In. split; [exact Hr|].
  unfold keeps_like, active. split; [|split].
  - intros _.
    assert (like_within q s) as Hw.
    { exists pre, (Py.chars q), post.
      pose proof (text_read_within _ _ _ _ Hc) as Hq.
      split; [exact Hc|]. split; [rewrite Hq; apply like_self|].
      intros Hz. exfalso. apply (c_string_no_nul (Py.chars q)).
      fold (text_read q). now rewrite Hq. }
    destruct Hs as [->|[->|[->|Hp]]]; [tauto | tauto | tauto |].
    right. right. right. now exists s.
  - intros v (Hv & _). discriminate Hv.
  - intros v (Hv & _). discriminate Hv.
Qed.

Lemma search_finds_rows_holding_the_query_witness :
  In jones_c (search_patients three_patients "123" None None).
Proof.
  apply search_finds_rows_holding_the_query; [simpl; tauto| |reflexivity].
  exists "5551234567". split; [right; right; right; reflexivity|].
  exists (Py.chars "555"), (Py.chars "4567"). reflexivity.
Defined.

(** X28: the domain filter finds every row of its domain: if what LIKE
    reads of the email of a stored row (the text up to its first NUL
    character) ends with "@" followed by the chosen domain, the domain is
    neither empty nor "All" and the pattern is within the length limit of
    LIKE, then [search_patients] with the empty query and that domain filter
    returns the row. *)
Theorem domain_filter_finds_its_rows :
  forall tb d r,
    In r (rows tb) ->
    (exists local, text_read (Row.email r) = local ++ "@"%char :: Py.chars d) ->
    d <> "" -> d <> "All" ->
    within_like_limit ("%@" ++ d) = true ->
    In r (search_patients tb "" None (Some d)).
Proof.
  intros tb d r Hr (local & Hc) Hd1 Hd2 _.
  apply search_patients_In. split; [exact Hr|].
  unfold keeps_like, active. split; [|split].
  - intros H. congruence.
  - intros v (Hv & _). discriminate Hv.
  - intros v (Hv & _). injection Hv as <-.
    exists local, ("@"%char :: Py.chars d). split; [exact Hc|].
    assert (text_read ("@" ++ d) = "@"%char :: Py.chars d) as ->.
    { change ("@"%char :: Py.chars d) with (Py.chars "@" ++ Py.chars d).
      rewrite <- chars_app.
      apply (text_read_within (Row.email r) local ("@" ++ d) []).
      rewrite app_nil_r, chars_app. exact Hc. }
    apply like_self.
Qed.

Lemma domain_filter_finds_its_rows_witness :
  In smith_b (search_patients three_patients "" None (Some "y.com")).
Proof.
  apply domain_filter_finds_its_rows;
    [simpl; tauto | | discriminate | discriminate | reflexivity].
  exists ["b"%char]. reflexivity.
Defined.

(** X29: the checks of the two forms pass exactly when, after [strip], the
    first name and the last name are not empty, the email has the email
    shape, the phone is empty or passes [is_valid_phone], and a date of
    entry is given; after [strip] a final newline cannot slip through the
    email check. *)
Theorem form_checks_pass_exactly_on_checked_input :
  forall first_name last_name email phone doe_date,
    form_errors first_name last_name email phone
                (option_map Date.isoformat doe_date) = [] <->
    PyStr.strip first_name <> "" /\
    PyStr.strip last_name <> "" /\
    email_shape (Py.chars (PyStr.strip email)) /\
    (PyStr.strip phone = "" \/ is_valid_phone (PyStr.strip phone) = true) /\
    doe_date <> None.
Proof.
  intros fn ln em ph doe. rewrite form_errors_none. split.
  - intros (H1 & H2 & H3 & _ & H5 & H6).
    split; [exact H1|]. split; [exact H2|].
    split; [now apply stripped_email_shape|]. split; [exact H5|].
    destruct doe; [discriminate | discriminate H6].
  - intros (H1 & H2 & H3 & H4 & H5).
    split; [exact H1|]. split; [exact H2|].
    split; [now apply is_valid_email_complete|].
    split; [|split; [exact H4|]].
    + intros He. rewrite He in H3.
      destruct H3 as (local & dom & tld & Heq & _).
      destruct local; discriminate Heq.
    + destruct doe as [d|]; [apply isoformat_truthy | contradiction].
Qed.
